(** * B3 Penny Stock Analyzer: the Express API of [server/index.ts]

    A shallow embedding of the request handlers, of the single-flight
    update guard and of the periodic auto-update of [server/index.ts],
    with the properties the specification states about them.

    Modelling conventions.
    - JavaScript strings are [string]s, the bytes of their UTF-8 encoding
      (so U+0000 is the byte 0 and U+00A0 the bytes C2 A0); string order is
      the lexicographic order on code units, here on bytes.
    - JavaScript numbers are rationals ([Q]); every finite double is one.
      The two infinities, which [JSON.parse] gives for a literal out of
      range, are values of their own.  How a number prints
      ([Number::toString]) and how a string is uppercased are parameters.
    - A computation that may throw has type [completion A]; a handler that
      throws is answered by Express, not by the handler.
    - The body of a request and the contents of [public/stocks.json] are
      arbitrary JSON values, with the conversions JavaScript applies to
      them.  The contracts of [data/cotahist.json], written by
      [scripts/update_stocks.py], are records with the field types the
      handler relies on.
    - The handlers are modelled from the point where Express calls them.
    - The process-wide variable [updateInProgress] and the child processes
      started by [exec] form the [State] threaded through handlers; what
      the handlers print on the console is left out. *)

From Stdlib Require Import List String Ascii Bool ZArith QArith Lia Lqa.
From Stdlib Require Import DecimalString.
From Stdlib Require Import Sorting.Sorted Sorting.Permutation.
Import ListNotations.

Local Open Scope string_scope.

(** ** A fragment of ECMAScript *)

Module JS.

(** Values as [JSON.parse] produces them, plus [undefined] for a property
    that is not there.  A number is finite ([Num]) or, for a literal out of
    range such as [1e999], [Infinity] or [-Infinity] ([Inf]). *)
#[warnings="-register-all"]
Inductive value : Type :=
| undefined
| null
| Bool (b : bool)
| Num (q : Q)
| Str (s : string)
| Arr (elems : list value)
| Obj (props : list (string * value))
| Inf (negative : bool).

(** What is thrown: a [TypeError], the [SyntaxError] of [JSON.parse], or
    the system error of [readFileSync]. *)
Inductive error : Type := TypeError | SyntaxError | SystemError.

(** Completion of an expression: a value, or a thrown exception. *)
Inductive completion (A : Type) : Type :=
| Normal (a : A)
| Throw (e : error).
Arguments Normal {A} a.
Arguments Throw {A} e.

Definition bind {A B} (c : completion A) (k : A -> completion B) : completion B :=
  match c with
  | Normal a => k a
  | Throw e => Throw e
  end.

(** [try { c } catch { h }] *)
Definition try_catch {A} (c : completion A) (h : A) : A :=
  match c with
  | Normal a => a
  | Throw _ => h
  end.

(** [ToBoolean]: the falsy values are [undefined], [null], [false], [0] and
    the empty string. *)
Definition ToBoolean (v : value) : bool :=
  match v with
  | undefined | null => false
  | Bool b => b
  | Num q => negb (Qeq_bool q 0)
  | Str s => negb (s =? "")
  | Arr _ | Obj _ | Inf _ => true
  end.

(** Own property of an object literal; a repeated key keeps its last value,
    as [JSON.parse] does. *)
Fixpoint own (props : list (string * value)) (k : string) : option value :=
  match props with
  | [] => None
  | (k', v) :: rest =>
      match own rest k with
      | Some w => Some w
      | None => if k' =? k then Some v else None
      end
  end.

(** [v.k], for a key [k] that no built-in prototype defines (true of
    every key the server reads): [TypeError] on [undefined] and [null],
    the own property of an object, [undefined] on anything else. *)
Definition get (v : value) (k : string) : completion value :=
  match v with
  | undefined | null => Throw TypeError
  | Obj props => Normal (match own props k with Some w => w | None => undefined end)
  | _ => Normal undefined
  end.

(** [v?.k] *)
Definition get_opt (v : value) (k : string) : value :=
  match v with
  | undefined | null => undefined
  | _ => try_catch (get v k) undefined
  end.

(** [v ?? d] *)
Definition nullish (v d : value) : value :=
  match v with
  | undefined | null => d
  | _ => v
  end.

Section ToString.

(** [Number::toString] *)
Variable Number_toString : Q -> string.

(** [String(v)], that is [ToString(v)] on these values.  An array prints
    as [join(",")], where [undefined] and [null] elements print empty.
    An object goes through [OrdinaryToPrimitive]: the inherited
    [toString] gives ["[object Object]"], but an own property named
    [toString] hides it, is not callable, and [valueOf] never returns a
    primitive, so the conversion throws a [TypeError]. *)
Fixpoint ToString (v : value) : completion string :=
  match v with
  | undefined => Normal "undefined"
  | null => Normal "null"
  | Bool true => Normal "true"
  | Bool false => Normal "false"
  | Num q => Normal (Number_toString q)
  | Str s => Normal s
  | Arr elems =>
      (fix join (l : list value) : completion string :=
         match l with
         | [] => Normal ""
         | e :: rest =>
             bind (match e with
                   | undefined | null => Normal ""
                   | _ => ToString e
                   end)
               (fun s =>
                  match rest with
                  | [] => Normal s
                  | _ => bind (join rest) (fun r => Normal (s ++ "," ++ r))
                  end)
         end) elems
  | Obj props =>
      match own props "toString" with
      | Some _ => Throw TypeError
      | None => Normal "[object Object]"
      end
  | Inf false => Normal "Infinity"
  | Inf true => Normal "-Infinity"
  end.

End ToString.

(** [xs.join(sep)] on an array of strings. *)
Fixpoint join (sep : string) (xs : list string) : string :=
  match xs with
  | [] => ""
  | [x] => x
  | x :: rest => x ++ sep ++ join sep rest
  end.

(** The white space and line terminators that [trim] removes, by the
    bytes of their UTF-8 encoding.  One byte: TAB, LF, VT, FF, CR and
    SPACE. *)
Definition is_white1 (c : ascii) : bool :=
  let n := nat_of_ascii c in
  ((9 <=? n) && (n <=? 13))%nat || (n =? 32)%nat.

(** Two bytes: U+00A0 (C2 A0). *)
Definition is_white2 (c1 c2 : ascii) : bool :=
  ((nat_of_ascii c1 =? 194) && (nat_of_ascii c2 =? 160))%nat.

(** Three bytes: U+1680 (E1 9A 80), U+2000 to U+200A (E2 80 80 to 8A),
    U+2028, U+2029 and U+202F (E2 80 A8, A9, AF), U+205F (E2 81 9F),
    U+3000 (E3 80 80) and U+FEFF (EF BB BF). *)
Definition is_white3 (c1 c2 c3 : ascii) : bool :=
  let n1 := nat_of_ascii c1 in
  let n2 := nat_of_ascii c2 in
  let n3 := nat_of_ascii c3 in
  (((n1 =? 225) && (n2 =? 154) && (n3 =? 128))
   || ((n1 =? 226) && (n2 =? 128) &&
       (((128 <=? n3) && (n3 <=? 138)) || (n3 =? 168) || (n3 =? 169) || (n3 =? 175)))
   || ((n1 =? 226) && (n2 =? 129) && (n3 =? 159))
   || ((n1 =? 227) && (n2 =? 128) && (n3 =? 128))
   || ((n1 =? 239) && (n2 =? 187) && (n3 =? 191)))%nat.

Fixpoint trimStart (s : string) : string :=
  match s with
  | EmptyString => EmptyString
  | String c1 r1 =>
      if is_white1 c1 then trimStart r1 else
      match r1 with
      | EmptyString => s
      | String c2 r2 =>
          if is_white2 c1 c2 then trimStart r2 else
          match r2 with
          | EmptyString => s
          | String c3 r3 => if is_white3 c1 c2 c3 then trimStart r3 else s
          end
      end
  end.

(** The string is made of white space only. *)
Fixpoint all_white (s : string) : bool :=
  match s with
  | EmptyString => true
  | String c1 r1 =>
      if is_white1 c1 then all_white r1 else
      match r1 with
      | EmptyString => false
      | String c2 r2 =>
          if is_white2 c1 c2 then all_white r2 else
          match r2 with
          | EmptyString => false
          | String c3 r3 => if is_white3 c1 c2 c3 then all_white r3 else false
          end
      end
  end.

Fixpoint trimEnd (s : string) : string :=
  match s with
  | EmptyString => EmptyString
  | String c r => if all_white s then EmptyString else String c (trimEnd r)
  end.

(** [s.includes('\0')]: the string holds U+0000. *)
Fixpoint has_nul (s : string) : bool :=
  match s with
  | EmptyString => false
  | String c r => (nat_of_ascii c =? 0)%nat || has_nul r
  end.

Definition trim (s : string) : string := trimEnd (trimStart s).

(** [s.slice(0, n)] *)
Definition slice0 (n : nat) (s : string) : string := substring 0 n s.

(** [[...new Set(xs)]]: the distinct strings of [xs], in order of first
    occurrence. *)
Fixpoint Set_spread (xs : list string) : list string :=
  match xs with
  | [] => []
  | x :: rest => x :: filter (fun y => negb (y =? x)) (Set_spread rest)
  end.

Section Sort.

Context {A : Type}.

(** The comparator: negative or zero when the first argument may stay
    before the second. *)
Variable cmp : A -> A -> Q.

Fixpoint insert (x : A) (l : list A) : list A :=
  match l with
  | [] => [x]
  | y :: rest => if Qle_bool (cmp x y) 0 then x :: l else y :: insert x rest
  end.

(** [xs.sort(cmp)].  The sort is stable; for a consistent comparator
    the stable sorted arrangement is unique, and this is it. *)
Definition sort (xs : list A) : list A := fold_right insert [] xs.

End Sort.

(** The comparator of [xs.sort()] without argument, on strings. *)
Definition default_cmp (a b : string) : Q :=
  if (a <? b) then (-1)%Q else if (b <? a) then 1%Q else 0%Q.

(** [s.toUpperCase()] on the letters a-z; the server's tickers are made of
    ASCII letters and digits.  Used where a concrete run is needed. *)
Fixpoint ascii_toUpperCase (s : string) : string :=
  match s with
  | EmptyString => EmptyString
  | String c r =>
      let n := nat_of_ascii c in
      String (if ((97 <=? n) && (n <=? 122))%nat then ascii_of_nat (n - 32) else c)
             (ascii_toUpperCase r)
  end.

End JS.

Import JS.

Notation "x <- c ;; k" := (bind c (fun x => k))
  (at level 61, c at next level, right associativity).

(** ** Data on disk *)

(** A contract of [data/cotahist.json], with the fields the handler reads.
    [ticker_objeto] and [strike] may be missing (the handler supplies [''] and
    [0]); [outros] stands for the fields it passes through untouched. *)
Record Opcao : Type := {
  ticker_objeto : option string;
  tipo : string;
  vencimento : string;
  strike : option Q;
  outros : list (string * value)
}.

(** The parsed [data/cotahist.json]; [opcoes] may be missing. *)
Record Cotahist : Type := { cotahist_opcoes : option (list Opcao) }.

(** A file as the server observes it: [None] when [existsSync] is false,
    otherwise the completion of [JSON.parse(readFileSync(file, 'utf-8'))],
    which throws when the file cannot be read or is not JSON. *)
Definition File (A : Type) : Type := option (completion A).

Record Disk : Type := {
  STOCKS_FILE : File value;       (* public/stocks.json *)
  COTAHIST_FILE : File Cotahist   (* data/cotahist.json *)
}.

Definition existsSync {A} (f : File A) : bool :=
  match f with Some _ => true | None => false end.

Definition parse_file {A} (f : File A) : completion A :=
  match f with Some c => c | None => Throw SystemError end.

(** A path of the file system; it holds no U+0000. *)
Record Path : Type := {
  path_text :> string;
  path_no_nul : has_nul path_text = false
}.

(** ** Clock *)

(** A [Date], by the three observations the server makes of it. *)
Record Date : Type := {
  toISOString : string;
  getUTCHours : Z;
  getUTCMinutes : Z
}.

(** ** Responses *)

Record Response (B : Type) : Type := { statusCode : Z; body : B }.
Arguments statusCode {B} r.
Arguments body {B} r.

(** [res.json(b)] and [res.status(n).json(b)] *)
Definition res_json {B} (b : B) : Response B := {| statusCode := 200; body := b |}.

Definition res_status_json {B} (n : Z) (b : B) : Response B :=
  {| statusCode := n; body := b |}.

(** ** Process state *)

(** The two callbacks handed to [exec]: the one of [POST /api/update] and
    the one of the periodic auto-update. *)
Inductive Callback : Type := UpdateCallback | AutoUpdateCallback.

(** A child process started by [exec] and not yet finished. *)
Record ChildProcess : Type := {
  command : string;
  timeout : Z;
  callback : Callback
}.

(** How a child process ends: it exits with a code, or [exec] kills it
    when the timeout runs out.  The callback's [err] is [null] exactly for
    exit code 0. *)
Inductive Exit : Type := Exited (code : Z) | TimedOut.

Record State : Type := {
  updateInProgress : bool;
  children : list ChildProcess
}.

(** [let updateInProgress = false;] and no child process. *)
Definition initial : State := {| updateInProgress := false; children := [] |}.

Definition set_updateInProgress (b : bool) (st : State) : State :=
  {| updateInProgress := b; children := children st |}.

(** [exec] refuses a command that holds U+0000: it throws a [TypeError]
    (ERR_INVALID_ARG_VALUE) at once and starts nothing. *)
Definition exec_throws (cmd : string) : bool := has_nul cmd.

(** [exec(command, { cwd: ROOT_DIR, timeout: 10 * 60 * 1000 }, callback)].
    When [exec] throws, no process is started and the callback never runs:
    the state stays as it is.  In POST /api/update the call is the last
    statement, after the guard is set and the answer sent, so the exception
    changes nothing more; the command of the timer holds no U+0000. *)
Definition exec (cmd : string) (cb : Callback) (st : State) : State :=
  if exec_throws cmd then st
  else
    {| updateInProgress := updateInProgress st;
       children := children st ++
                   [{| command := cmd; timeout := 10 * 60 * 1000; callback := cb |}] |}.

(** Both callbacks start with [updateInProgress = false]; the rest of
    their bodies writes to the console only. *)
Definition run_callback (cb : Callback) (e : Exit) (st : State) : State :=
  match cb with
  | UpdateCallback => set_updateInProgress false st
  | AutoUpdateCallback => set_updateInProgress false st
  end.

Definition dquote : string := String (ascii_of_nat 34) EmptyString.

Definition UPDATE_INTERVAL_MS : Z := 30 * 60 * 1000.

(** [isTradinghours], on the current [Date]. *)
Definition isTradinghours (now : Date) : bool :=
  let utcH := getUTCHours now in
  let utcM := getUTCMinutes now in
  let total := (utcH * 60 + utcM)%Z in
  ((13 * 60 <=? total) && (total <=? 21 * 60 + 20))%Z.

(** [a.strike ?? 0] *)
Definition strike_or_0 (o : Opcao) : Q :=
  match strike o with Some k => k | None => 0 end.

(** [(a, b) => (a.strike ?? 0) - (b.strike ?? 0)] *)
Definition strike_cmp (a b : Opcao) : Q := strike_or_0 a - strike_or_0 b.

(** The body [{ opcoes: [...] }] of [GET /api/options/:ticker]. *)
Record OpcoesBody : Type := { opcoes : list Opcao }.

(** [cotahist.opcoes ?? []] *)
Definition allOpts (cotahist : Cotahist) : list Opcao :=
  match cotahist_opcoes cotahist with Some l => l | None => [] end.

(** One turn of [for (const tipo of ['CALL', 'PUT'])] on the array
    [matched], pushing onto [result]. *)
Definition push_proximo (matched : list Opcao) (result : list Opcao) (t : string)
  : list Opcao :=
  let tipoOpts := filter (fun o => tipo o =? t) matched in
  match tipoOpts with
  | [] => result
  | _ =>
      let vencimentos := sort default_cmp (Set_spread (map vencimento tipoOpts)) in
      match vencimentos with
      | [] => result
      | proximo :: _ => result ++ filter (fun o => vencimento o =? proximo) tipoOpts
      end
  end.

(** One event of the event loop. *)
Inductive Event : Type :=
| PostUpdate (req_body : value)      (* a POST /api/update reaches its handler *)
| Tick (now : Date)                  (* the interval timer fires *)
| ChildExit (i : nat) (e : Exit).    (* the [i]-th running child ends *)

Fixpoint remove_nth {A} (i : nat) (l : list A) : list A :=
  match i, l with
  | _, [] => []
  | O, _ :: rest => rest
  | S j, x :: rest => x :: remove_nth j rest
  end.

Section Server.

(** [String.prototype.toUpperCase] and [Number::toString]. *)
Variable toUpperCase : string -> string.
Variable Number_toString : Q -> string.

(** [path.join(ROOT_DIR, 'scripts', 'update_stocks.py')] *)
Variable scriptPath : Path.

(** *** Helpers *)

Definition readStocks (d : Disk) : value :=
  if negb (existsSync (STOCKS_FILE d)) then null
  else try_catch (parse_file (STOCKS_FILE d)) null.

Definition runUpdateScript (extraArgs : list string) (cb : Callback) (st : State) : State :=
  let args := join " " extraArgs in
  exec (trim ("python " ++ dquote ++ scriptPath ++ dquote ++ " " ++ args)) cb st.

(** *** GET /api/stocks *)

Definition api_stocks (d : Disk) : Response value :=
  let data := readStocks d in
  if negb (ToBoolean data) then
    res_status_json 404
      (Obj [("error", Str "Dados não disponíveis. Chame POST /api/update para gerar.")])
  else res_json data.

(** *** GET /api/status *)

Definition api_status (d : Disk) (st : State) : completion (Response value) :=
  let data := readStocks d in
  if negb (ToBoolean data) then
    Normal (res_json (Obj [("disponivel", Bool false);
                           ("updateInProgress", Bool (updateInProgress st))]))
  else
    atualizadoEm <- get data "atualizadoEm" ;;
    dataReferencia <- get data "dataReferencia" ;;
    fonte <- get data "fonte" ;;
    totalAcoes <- get data "totalAcoes" ;;
    Normal (res_json (Obj [("disponivel", Bool true);
                           ("atualizadoEm", nullish atualizadoEm null);
                           ("dataReferencia", nullish dataReferencia null);
                           ("fonte", nullish fonte null);
                           ("totalAcoes", nullish totalAcoes (Num 0));
                           ("updateInProgress", Bool (updateInProgress st))])).

(** *** GET /api/options/:ticker *)

(** The filter "opções futuras para este ticker":
    [String(o.ticker_objeto ?? '').toUpperCase() === ticker && o.vencimento >= today] *)
Definition matches (ticker today : string) (o : Opcao) : bool :=
  let obj := toUpperCase (match ticker_objeto o with Some s => s | None => "" end) in
  (obj =? ticker) && (today <=? vencimento o).

Definition matched (cotahist : Cotahist) (ticker today : string) : list Opcao :=
  filter (matches ticker today) (allOpts cotahist).

(** The body of the [try] block, from the parsed file on. *)
Definition resolve (cotahist : Cotahist) (ticker today : string) : list Opcao :=
  let result := fold_left (push_proximo (matched cotahist ticker today)) ["CALL"; "PUT"] [] in
  sort strike_cmp result.

Definition api_options (d : Disk) (now : Date) (param_ticker : string)
  : Response OpcoesBody :=
  let ticker := toUpperCase param_ticker in
  let prefix := slice0 4 ticker in
  if negb (existsSync (COTAHIST_FILE d)) then res_json {| opcoes := [] |}
  else
    try_catch
      (cotahist <- parse_file (COTAHIST_FILE d) ;;
       let today := slice0 10 (toISOString now) in
       Normal (res_json {| opcoes := resolve cotahist ticker today |}))
      (res_json {| opcoes := [] |}).

(** *** POST /api/update *)

(** [req.body?.maxPreco ? String(req.body.maxPreco) : '10.0'] *)
Definition maxPreco_of (req_body : value) : completion string :=
  let v := get_opt req_body "maxPreco" in
  if ToBoolean v then ToString Number_toString v else Normal "10.0".

(** The handler's answer: the response it sends, or the exception it throws
    before it has sent one.  [runUpdateScript] is called after the answer
    is sent and the guard is set: if [exec] throws there, the client has its
    200, the guard stays set and no process runs. *)
Definition api_update (req_body : value) (st : State)
  : completion (Response value) * State :=
  if updateInProgress st then
    (Normal (res_status_json 409
               (Obj [("error", Str "Atualização já em andamento. Aguarde.")])), st)
  else
    match maxPreco_of req_body with
    | Throw e => (Throw e, st)
    | Normal maxPreco =>
        let st := set_updateInProgress true st in
        let res := res_json (Obj [("success", Bool true);
                                  ("mensagem", Str "Atualização iniciada. Consulte GET /api/status.")]) in
        (Normal res, runUpdateScript ["--max-preco " ++ maxPreco] UpdateCallback st)
    end.

(** *** Periodic auto-update: the function given to [setInterval] *)

Definition auto_update (now : Date) (st : State) : State :=
  if updateInProgress st || negb (isTradinghours now) then st
  else runUpdateScript [] AutoUpdateCallback (set_updateInProgress true st).

(** *** The event loop *)

(** One turn of the event loop; [None] when the event cannot happen (no
    such child). *)
Definition step (ev : Event) (st : State) : option State :=
  match ev with
  | PostUpdate req_body => Some (snd (api_update req_body st))
  | Tick now => Some (auto_update now st)
  | ChildExit i e =>
      match nth_error (children st) i with
      | Some ch =>
          Some (run_callback (callback ch) e
                  {| updateInProgress := updateInProgress st;
                     children := remove_nth i (children st) |})
      | None => None
      end
  end.

Inductive reachable : State -> Prop :=
| reachable_initial : reachable initial
| reachable_step ev st st' :
    reachable st -> step ev st = Some st' -> reachable st'.

End Server.

(** ** Notions used to state the properties *)

(** [x] may stay before [y] in an array sorted with the comparator [cmp]. *)
Definition goes_before {A} (cmp : A -> A -> Q) (x y : A) : Prop := cmp x y <= 0.

(** [v] is the earliest [vencimento] among the contracts of type [t] in [m]. *)
Definition is_proximo (m : list Opcao) (t v : string) : Prop :=
  (exists o, In o m /\ tipo o = t /\ vencimento o = v) /\
  (forall o, In o m -> tipo o = t -> (v <=? vencimento o) = true).

(** The order the handler sorts by: strikes compared as numbers, a missing
    strike counted as [0]. *)
Definition strike_le (a b : Opcao) : Prop := strike_or_0 a <= strike_or_0 b.

(** The order in the words of the specification: a missing strike is the
    lowest possible value, below every number. *)
Definition spec_strike_le (a b : Opcao) : Prop :=
  match strike a, strike b with
  | None, _ => True
  | Some _, None => False
  | Some x, Some y => x <= y
  end.

(** Time of day [h1:m1] is not after [h2:m2]. *)
Definition time_le (h1 m1 h2 m2 : Z) : Prop :=
  (h1 < h2 \/ (h1 = h2 /\ m1 <= m2))%Z.

(** The trading window of the specification: 13:00 to 21:20 UTC, both
    ends included. *)
Definition in_trading_window (now : Date) : Prop :=
  time_le 13 0 (getUTCHours now) (getUTCMinutes now) /\
  time_le (getUTCHours now) (getUTCMinutes now) 21 20.

(** No child process runs while the guard is clear, and at most one
    while it is set. *)
Definition children_within_guard (st : State) : Prop :=
  (List.length (children st) <= if updateInProgress st then 1 else 0)%nat.

(** ** Sample data *)

Definition sample_opcao (t ty v : string) (k : option Q) : Opcao :=
  {| ticker_objeto := Some t; tipo := ty; vencimento := v; strike := k; outros := [] |}.

(** The scenario of the specification: two CALLs and one PUT on AAAA3. *)
Definition sample_cotahist : Cotahist :=
  {| cotahist_opcoes := Some
       [ sample_opcao "AAAA3" "CALL" "2026-01-16" (Some 5);
         sample_opcao "AAAA3" "CALL" "2026-02-20" (Some 6);
         sample_opcao "AAAA3" "PUT" "2026-01-16" (Some 4.5) ] |}.

(** CALLs and PUTs that expire on different days. *)
Definition staggered_cotahist : Cotahist :=
  {| cotahist_opcoes := Some
       [ sample_opcao "AAAA3" "CALL" "2026-02-20" (Some 6);
         sample_opcao "AAAA3" "PUT" "2026-01-16" (Some 4.5) ] |}.

(** A contract without strike, then one with a negative strike. *)
Definition negative_strike_cotahist : Cotahist :=
  {| cotahist_opcoes := Some
       [ sample_opcao "AAAA3" "CALL" "2026-01-16" None;
         sample_opcao "AAAA3" "CALL" "2026-01-16" (Some (-1)) ] |}.

Definition sample_disk (c : Cotahist) : Disk :=
  {| STOCKS_FILE := None; COTAHIST_FILE := Some (Normal c) |}.

Definition sample_date (iso : string) (h m : Z) : Date :=
  {| toISOString := iso; getUTCHours := h; getUTCMinutes := m |}.

Definition sample_scriptPath : Path :=
  {| path_text := "/srv/app/scripts/update_stocks.py"; path_no_nul := eq_refl |}.

(** [Number::toString] on integers (enough for the sample runs). *)
Definition integer_toString (q : Q) : string :=
  DecimalString.NilZero.string_of_int (Z.to_int (Qnum q / Zpos (Qden q))).

(** A body whose [maxPreco] cannot be converted to a string:
    [{"maxPreco": {"toString": 0}}]. *)
Definition unprintable_body : value :=
  Obj [("maxPreco", Obj [("toString", Num 0)])].

(** ** Further notions *)

(** The properties of an object literal (none for another value). *)
Definition props_of (v : value) : list (string * value) :=
  match v with Obj props => props | _ => [] end.

(** The contract's strike, a missing one counted as 0, is [k]. *)
Definition has_strike (k : Q) (o : Opcao) : bool := Qeq_bool (strike_or_0 o) k.

(** The command line of the update script followed by [rest]. *)
Definition script_command (scriptPath rest : string) : string :=
  "python " ++ dquote ++ scriptPath ++ dquote ++ rest.

(** What every child process of the server looks like: the update script
    with the 10-minute limit, without argument for a scheduled run and with
    [--max-preco] for a manual one. *)
Definition started_by_server (scriptPath : string) (ch : ChildProcess) : Prop :=
  timeout ch = 600000%Z /\
  match callback ch with
  | AutoUpdateCallback => command ch = script_command scriptPath ""
  | UpdateCallback =>
      exists rest, command ch = script_command scriptPath (" --max-preco" ++ rest)
  end.

(** ** The dashboard's statistics (component [App]) *)

Module Dashboard.

(** A row of the dashboard, with the fields [getStocks] fills in; a number
    that is [null] (or not a number) is [None]. *)
Record StockData : Type := {
  ticker : string;
  empresa : string;
  preco : option Q;
  setor : string;
  dy : option Q;
  pl : option Q;
  pvp : option Q;
  var5a : option Q;
  upsideGraham : option Q;
  varDia : option Q;
  varSemana : option Q;
  volume : option Q;
  ultimaAtualizacao : string
}.

(** [x || d] on a number: [d] replaces [null], [NaN] and [0]. *)
Definition number_or (x : option Q) (d : Q) : Q :=
  match x with
  | Some q => if Qeq_bool q 0 then d else q
  | None => d
  end.

(** [[...allStocks].sort((a, b) => (b.varDia || -999) - (a.varDia || -999))[0]];
    [None] is [undefined], the first element of an empty array. *)
Definition topGainer (allStocks : list StockData) : option StockData :=
  hd_error (sort (fun a b => number_or (varDia b) (-999) - number_or (varDia a) (-999))
              allStocks).

(** [[...allStocks].sort((a, b) => (a.varDia || 999) - (b.varDia || 999))[0]] *)
Definition topLoser (allStocks : list StockData) : option StockData :=
  hd_error (sort (fun a b => number_or (varDia a) 999 - number_or (varDia b) 999)
              allStocks).

Definition sample_stock (t : string) (v : option Q) : StockData :=
  {| ticker := t; empresa := t; preco := Some 5; setor := "N/A"; dy := None;
     pl := None; pvp := None; var5a := None; upsideGraham := None; varDia := v;
     varSemana := None; volume := None; ultimaAtualizacao := "" |}.

End Dashboard.

(** ** Order on strings *)

Module StringOrder.

Lemma ascii_compare_N (a b : ascii) :
  Ascii.compare a b = N.compare (N_of_ascii a) (N_of_ascii b).
Proof. reflexivity. Qed.

Lemma ascii_compare_trans (a b c : ascii) (r : comparison) :
  Ascii.compare a b = r -> Ascii.compare b c = r -> Ascii.compare a c = r.
Proof.
  rewrite !ascii_compare_N. intros H1 H2. destruct r.
  - rewrite N.compare_eq_iff in *. congruence.
  - rewrite N.compare_lt_iff in *. lia.
  - rewrite N.compare_gt_iff in *. lia.
Qed.

Lemma ascii_compare_eq (a b : ascii) : Ascii.compare a b = Eq -> a = b.
Proof. apply Ascii.compare_eq_iff. Qed.

Lemma ascii_compare_refl (a : ascii) : Ascii.compare a a = Eq.
Proof. rewrite ascii_compare_N. apply N.compare_refl. Qed.

Lemma compare_refl (s : string) : String.compare s s = Eq.
Proof. induction s as [|c s IH]; simpl; [|rewrite ascii_compare_refl]; auto. Qed.

(** A strict step followed by a weak step is strict. *)
Lemma compare_lt_trans (s1 : string) :
  forall s2 s3, String.compare s1 s2 = Lt -> String.compare s2 s3 = Lt ->
                String.compare s1 s3 = Lt.
Proof.
  induction s1 as [|a s1 IH]; intros [|b s2] [|c s3]; simpl; try congruence.
  destruct (Ascii.compare a b) eqn:Hab; try congruence;
    destruct (Ascii.compare b c) eqn:Hbc; try congruence; intros H1 H2.
  - apply ascii_compare_eq in Hab, Hbc. subst. rewrite ascii_compare_refl. eauto.
  - apply ascii_compare_eq in Hab. subst. now rewrite Hbc.
  - apply ascii_compare_eq in Hbc. subst. now rewrite Hab.
  - now rewrite (ascii_compare_trans _ _ _ _ Hab Hbc).
Qed.

Lemma leb_refl (s : string) : (s <=? s) = true.
Proof. unfold String.leb. now rewrite compare_refl. Qed.

Lemma leb_trans (s1 s2 s3 : string) :
  (s1 <=? s2) = true -> (s2 <=? s3) = true -> (s1 <=? s3) = true.
Proof.
  unfold String.leb.
  destruct (String.compare s1 s2) eqn:H12; try discriminate;
    destruct (String.compare s2 s3) eqn:H23; try discriminate; intros _ _.
  - apply String.compare_eq_iff in H12, H23. subst. now rewrite compare_refl.
  - apply String.compare_eq_iff in H12. subst. now rewrite H23.
  - apply String.compare_eq_iff in H23. subst. now rewrite H12.
  - now rewrite (compare_lt_trans _ _ _ H12 H23).
Qed.

(** The default comparator of [sort] orders strings as [<=?] does. *)
Lemma default_cmp_le (a b : string) : default_cmp a b <= 0 <-> (a <=? b) = true.
Proof.
  unfold default_cmp, String.ltb, String.leb.
  rewrite (String.compare_antisym b a).
  destruct (String.compare a b); simpl; split; intros H; try reflexivity;
    try discriminate; try (now compute); exfalso; apply H; reflexivity.
Qed.

End StringOrder.

(** ** Facts about [sort] *)

Section SortFacts.

Context {A : Type}.
Variable cmp : A -> A -> Q.

Lemma insert_perm (x : A) (l : list A) : Permutation (insert cmp x l) (x :: l).
Proof.
  induction l as [|y l IH]; simpl; [reflexivity|].
  destruct (Qle_bool (cmp x y) 0); [reflexivity|].
  rewrite IH. apply perm_swap.
Qed.

Lemma sort_perm (l : list A) : Permutation (sort cmp l) l.
Proof.
  induction l as [|x l IH]; simpl; [reflexivity|].
  rewrite insert_perm. now constructor.
Qed.

Lemma sort_In (l : list A) (x : A) : In x (sort cmp l) <-> In x l.
Proof.
  split; apply Permutation_in; [|symmetry]; apply sort_perm.
Qed.

Hypothesis cmp_total : forall x y, goes_before cmp x y \/ goes_before cmp y x.
Hypothesis cmp_trans :
  forall x y z, goes_before cmp x y -> goes_before cmp y z -> goes_before cmp x z.

Lemma insert_sorted (x : A) (l : list A) :
  StronglySorted (goes_before cmp) l -> StronglySorted (goes_before cmp) (insert cmp x l).
Proof.
  induction 1 as [|y l Hl IH Hy]; simpl; [repeat constructor|].
  destruct (Qle_bool (cmp x y) 0) eqn:Hxy.
  - apply Qle_bool_iff in Hxy. constructor; [now constructor|].
    constructor; [exact Hxy|].
    rewrite Forall_forall in *. intros z Hz. eapply cmp_trans; eauto.
  - assert (Hyx : goes_before cmp y x).
    { destruct (cmp_total x y) as [H|H]; [|exact H].
      apply Qle_bool_iff in H. unfold goes_before in *. congruence. }
    constructor; [exact IH|].
    rewrite Forall_forall in *. intros z Hz.
    apply (Permutation_in _ (insert_perm x l)) in Hz.
    destruct Hz as [<-|Hz]; auto.
Qed.

Lemma sort_sorted (l : list A) : StronglySorted (goes_before cmp) (sort cmp l).
Proof.
  induction l as [|x l IH]; simpl; [constructor|]. now apply insert_sorted.
Qed.

End SortFacts.

(** ** The options resolver *)

Lemma Set_spread_In (xs : list string) (x : string) :
  In x (Set_spread xs) <-> In x xs.
Proof.
  induction xs as [|y xs IH]; simpl; [tauto|].
  rewrite filter_In, IH, negb_true_iff, String.eqb_neq.
  destruct (string_dec y x) as [->|Hne]; [tauto|].
  split; [tauto|]. intros [H|H]; [tauto|]. right. split; [exact H|congruence].
Qed.

Lemma default_cmp_total (a b : string) :
  goes_before default_cmp a b \/ goes_before default_cmp b a.
Proof.
  unfold goes_before. rewrite !StringOrder.default_cmp_le. apply String.leb_total.
Qed.

Lemma default_cmp_trans (a b c : string) :
  goes_before default_cmp a b -> goes_before default_cmp b c ->
  goes_before default_cmp a c.
Proof.
  unfold goes_before. rewrite !StringOrder.default_cmp_le. apply StringOrder.leb_trans.
Qed.

(** The first element of a sorted array of strings is its least one. *)
Lemma sort_default_head (xs : list string) (p : string) (ps : list string) :
  sort default_cmp xs = p :: ps ->
  In p xs /\ forall x, In x xs -> (p <=? x) = true.
Proof.
  intros E. split.
  - apply (sort_In default_cmp). rewrite E. now left.
  - intros x Hx. apply (sort_In default_cmp) in Hx. rewrite E in Hx.
    pose proof (sort_sorted default_cmp default_cmp_total default_cmp_trans xs) as S.
    rewrite E in S. inversion S as [|? ? _ Hall]; subst.
    destruct Hx as [<-|Hx]; [apply StringOrder.leb_refl|].
    rewrite Forall_forall in Hall. now apply StringOrder.default_cmp_le, Hall.
Qed.

Lemma strike_cmp_le (a b : Opcao) : goes_before strike_cmp a b <-> strike_le a b.
Proof. unfold goes_before, strike_cmp, strike_le. split; intros H; lra. Qed.

Lemma strike_cmp_total (a b : Opcao) :
  goes_before strike_cmp a b \/ goes_before strike_cmp b a.
Proof. rewrite !strike_cmp_le. unfold strike_le. lra. Qed.

Lemma strike_cmp_trans (a b c : Opcao) :
  goes_before strike_cmp a b -> goes_before strike_cmp b c ->
  goes_before strike_cmp a c.
Proof. rewrite !strike_cmp_le. unfold strike_le. lra. Qed.

Lemma StronglySorted_impl {A} (R S : A -> A -> Prop) (l : list A) :
  (forall x y, R x y -> S x y) -> StronglySorted R l -> StronglySorted S l.
Proof.
  intros HRS. induction 1 as [|x l _ IH Hx]; constructor; [exact IH|].
  eapply Forall_impl; [|exact Hx]. auto.
Qed.

(** What one turn of the loop over the types pushes: the contracts of type
    [t] whose date is the earliest of that type. *)
Lemma push_proximo_In (m result : list Opcao) (t : string) (o : Opcao) :
  In o (push_proximo m result t) <->
  In o result \/ (In o m /\ tipo o = t /\ is_proximo m t (vencimento o)).
Proof.
  unfold push_proximo, is_proximo.
  assert (Hf : forall x, In x (filter (fun o => tipo o =? t) m) <-> In x m /\ tipo x = t).
  { intros x. now rewrite filter_In, String.eqb_eq. }
  destruct (filter (fun o => tipo o =? t) m) as [|a l] eqn:E.
  - split; [tauto|]. intros [H|(H1 & H2 & _)]; [exact H|].
    exfalso. apply (proj2 (Hf o)). tauto.
  - destruct (sort default_cmp (Set_spread (map vencimento (a :: l)))) as [|p ps] eqn:Es.
    + exfalso.
      assert (H : In (vencimento a) (sort default_cmp (Set_spread (map vencimento (a :: l))))).
      { apply sort_In, Set_spread_In. now left. }
      rewrite Es in H. exact H.
    + apply sort_default_head in Es. destruct Es as [Hp Hmin].
      apply Set_spread_In, in_map_iff in Hp. destruct Hp as (op & Hop & Hin).
      assert (Hmin' : forall x, In x m -> tipo x = t -> (p <=? vencimento x) = true).
      { intros x H1 H2. apply Hmin, Set_spread_In, in_map, Hf. tauto. }
      rewrite in_app_iff, filter_In, String.eqb_eq, Hf. split.
      * intros [H|((H1 & H2) & H3)]; [tauto|]. right. repeat split; trivial.
        -- exists o. tauto.
        -- rewrite H3. exact Hmin'.
      * intros [H|(H1 & H2 & _ & H3)]; [tauto|]. right. repeat split; trivial.
        apply Hf in Hin. apply String.leb_antisym.
        -- rewrite <- Hop. now apply H3.
        -- now apply Hmin'.
Qed.

Section Resolver.

Variable toUpperCase : string -> string.

Lemma resolve_In (cotahist : Cotahist) (ticker today : string) (o : Opcao) :
  In o (resolve toUpperCase cotahist ticker today) <->
  In o (matched toUpperCase cotahist ticker today) /\
  (tipo o = "CALL" \/ tipo o = "PUT") /\
  is_proximo (matched toUpperCase cotahist ticker today) (tipo o) (vencimento o).
Proof.
  unfold resolve. rewrite sort_In. simpl. rewrite !push_proximo_In. simpl.
  split.
  - intros [[[]|(H1 & H2 & H3)]|(H1 & H2 & H3)]; rewrite H2; tauto.
  - intros (H1 & [H2|H2] & H3); rewrite H2 in H3; tauto.
Qed.

Lemma matched_In (cotahist : Cotahist) (ticker today : string) (o : Opcao) :
  In o (matched toUpperCase cotahist ticker today) <->
  In o (allOpts cotahist) /\
  toUpperCase (match ticker_objeto o with Some s => s | None => "" end) = ticker /\
  (today <=? vencimento o) = true.
Proof.
  unfold matched, matches. now rewrite filter_In, andb_true_iff, String.eqb_eq.
Qed.

(** What the endpoint answers, by the state of [data/cotahist.json]. *)
Lemma api_options_body (d : Disk) (now : Date) (param_ticker : string) :
  opcoes (body (api_options toUpperCase d now param_ticker)) =
  match COTAHIST_FILE d with
  | Some (Normal cotahist) =>
      resolve toUpperCase cotahist (toUpperCase param_ticker) (slice0 10 (toISOString now))
  | _ => []
  end.
Proof.
  unfold api_options. destruct (COTAHIST_FILE d) as [[c|e]|]; reflexivity.
Qed.

(** C3. In the resolver's result, the contracts of one type (CALL, or PUT)
    are exactly the contracts of the snapshot that have the request's
    ticker, expire today or later, are of that type, and whose expiration
    date is the earliest among the contracts of the snapshot with that
    ticker, that type and a date of today or later: all CALLs carry the CALL
    minimum and all PUTs the PUT minimum, each minimum taken over its own
    type only, and a type without such contracts contributes nothing. *)
Theorem resolve_proximo_por_tipo (cotahist : Cotahist) (ticker today t : string)
    (o : Opcao) :
  t = "CALL" \/ t = "PUT" ->
  (In o (resolve toUpperCase cotahist ticker today) /\ tipo o = t <->
   (In o (allOpts cotahist) /\
    toUpperCase (match ticker_objeto o with Some s => s | None => "" end) = ticker /\
    (today <=? vencimento o) = true /\
    tipo o = t) /\
   (forall o',
      In o' (allOpts cotahist) ->
      toUpperCase (match ticker_objeto o' with Some s => s | None => "" end) = ticker ->
      (today <=? vencimento o') = true ->
      tipo o' = t ->
      (vencimento o <=? vencimento o') = true)).
Proof.
  intros Ht. rewrite resolve_In, matched_In. unfold is_proximo. split.
  - intros (((H1 & H2 & H3) & _ & _ & Hmin) & H4). rewrite H4 in Hmin.
    repeat split; trivial. intros o' Ho' Ht' Hd' Htipo.
    apply Hmin; [apply matched_In|]; tauto.
  - intros ((H1 & H2 & H3 & H4) & Hmin). rewrite H4. subst t.
    repeat split; trivial.
    + exists o. rewrite matched_In. tauto.
    + intros o' Ho' Htipo. apply matched_In in Ho'. apply Hmin; tauto.
Qed.

(** C4. Every contract the endpoint returns has an underlying ticker that,
    uppercased, is the whole uppercased request ticker, whatever its length,
    and expires today or later. *)
Theorem api_options_ticker_exato_e_futuro (d : Disk) (now : Date)
    (param_ticker : string) (o : Opcao) :
  In o (opcoes (body (api_options toUpperCase d now param_ticker))) ->
  toUpperCase (match ticker_objeto o with Some s => s | None => "" end)
    = toUpperCase param_ticker /\
  (slice0 10 (toISOString now) <=? vencimento o) = true.
Proof.
  rewrite api_options_body. destruct (COTAHIST_FILE d) as [[c|e]|]; simpl; try tauto.
  rewrite resolve_In, matched_In. tauto.
Qed.

(** C5, as the code has it. The contracts the endpoint returns are in
    non-decreasing order of strike, a missing strike counted as 0. *)
Theorem api_options_sorted_by_strike_or_0 (d : Disk) (now : Date)
    (param_ticker : string) :
  StronglySorted strike_le (opcoes (body (api_options toUpperCase d now param_ticker))).
Proof.
  rewrite api_options_body. destruct (COTAHIST_FILE d) as [[c|e]|]; try constructor.
  unfold resolve. eapply StronglySorted_impl; [apply strike_cmp_le|].
  apply sort_sorted; [exact strike_cmp_total | exact strike_cmp_trans].
Qed.

(** C6. The endpoint always answers with status 200, and with an empty list
    when the file is missing, when it does not parse, and when no contract
    matches the ticker. *)
Theorem api_options_never_an_error (d : Disk) (now : Date) (param_ticker : string) :
  statusCode (api_options toUpperCase d now param_ticker) = 200%Z /\
  (COTAHIST_FILE d = None ->
   opcoes (body (api_options toUpperCase d now param_ticker)) = []) /\
  (forall e, COTAHIST_FILE d = Some (Throw e) ->
   opcoes (body (api_options toUpperCase d now param_ticker)) = []) /\
  (forall cotahist, COTAHIST_FILE d = Some (Normal cotahist) ->
   (forall o, In o (allOpts cotahist) ->
              toUpperCase (match ticker_objeto o with Some s => s | None => "" end)
              <> toUpperCase param_ticker) ->
   opcoes (body (api_options toUpperCase d now param_ticker)) = []) /\
  (forall cotahist, COTAHIST_FILE d = Some (Normal cotahist) ->
   matched toUpperCase cotahist (toUpperCase param_ticker)
     (slice0 10 (toISOString now)) = [] ->
   opcoes (body (api_options toUpperCase d now param_ticker)) = []).
Proof.
  assert (Hempty : forall cotahist, COTAHIST_FILE d = Some (Normal cotahist) ->
            matched toUpperCase cotahist (toUpperCase param_ticker)
              (slice0 10 (toISOString now)) = [] ->
            opcoes (body (api_options toUpperCase d now param_ticker)) = []).
  { intros c Hc Hm. rewrite api_options_body, Hc. unfold resolve. now rewrite Hm. }
  split; [|split; [|split; [|split]]].
  - unfold api_options. destruct (COTAHIST_FILE d) as [[c|e]|]; reflexivity.
  - rewrite api_options_body. now intros ->.
  - rewrite api_options_body. now intros e ->.
  - intros c Hc Hno. apply (Hempty c Hc).
    destruct (matched _ _ _ _) as [|o l] eqn:Hm; [reflexivity|].
    assert (Ho : In o (matched toUpperCase c (toUpperCase param_ticker)
                         (slice0 10 (toISOString now)))) by (rewrite Hm; now left).
    apply matched_In in Ho. destruct Ho as (Hin & Ht & _). now elim (Hno o Hin).
  - exact Hempty.
Qed.

End Resolver.

(** ** White space and the command line handed to [exec] *)

Module Trim.

Lemma is_white2_bytes (c1 c2 : ascii) :
  is_white2 c1 c2 = true ->
  (128 <= nat_of_ascii c1 /\ 128 <= nat_of_ascii c2)%nat.
Proof.
  unfold is_white2. rewrite andb_true_iff, !Nat.eqb_eq. lia.
Qed.

Lemma is_white3_bytes (c1 c2 c3 : ascii) :
  is_white3 c1 c2 c3 = true ->
  (128 <= nat_of_ascii c1 /\ 128 <= nat_of_ascii c2 /\ 128 <= nat_of_ascii c3)%nat.
Proof.
  unfold is_white3.
  rewrite !orb_true_iff, !andb_true_iff, !orb_true_iff, !andb_true_iff,
    !Nat.eqb_eq, !Nat.leb_le. lia.
Qed.

Lemma is_white1_byte (c : ascii) :
  is_white1 c = true -> (0 < nat_of_ascii c < 128)%nat.
Proof.
  unfold is_white1. rewrite orb_true_iff, andb_true_iff, Nat.eqb_eq, !Nat.leb_le. lia.
Qed.

Lemma trimEnd_cons (c : ascii) (r : string) :
  trimEnd (String c r) =
  if all_white (String c r) then EmptyString else String c (trimEnd r).
Proof. reflexivity. Qed.

(** A one-byte character is white space by itself or not at all. *)
Lemma all_white_cons_ascii (c : ascii) (x : string) :
  (nat_of_ascii c < 128)%nat ->
  all_white (String c x) = is_white1 c && all_white x.
Proof.
  intros Hc. cbn [all_white]. destruct (is_white1 c); [reflexivity|].
  destruct x as [|c2 [|c3 x]]; cbn [andb]; try reflexivity.
  - destruct (is_white2 c c2) eqn:H2; [apply is_white2_bytes in H2; lia|reflexivity].
  - destruct (is_white2 c c2) eqn:H2; [apply is_white2_bytes in H2; lia|].
    destruct (is_white3 c c2 c3) eqn:H3; [apply is_white3_bytes in H3; lia|reflexivity].
Qed.

(** A one-byte character that is no white space. *)
Definition plain (c : ascii) : Prop :=
  (nat_of_ascii c < 128)%nat /\ is_white1 c = false.

Lemma all_white_cons (c1 : ascii) (x : string) :
  all_white (String c1 x) =
  if is_white1 c1 then all_white x else
  match x with
  | EmptyString => false
  | String c2 r2 =>
      if is_white2 c1 c2 then all_white r2 else
      match r2 with
      | EmptyString => false
      | String c3 r3 => if is_white3 c1 c2 c3 then all_white r3 else false
      end
  end.
Proof. reflexivity. Qed.

(** A string that holds a plain character is not white space only. *)
Lemma all_white_plain (c : ascii) (r : string) :
  plain c -> forall n s, (String.length s <= n)%nat ->
  all_white (s ++ String c r) = false.
Proof.
  intros [Hc Hw].
  assert (H0 : all_white (String c r) = false)
    by (rewrite all_white_cons_ascii, Hw by exact Hc; reflexivity).
  induction n as [|n IH]; intros s Hn.
  - destruct s; [exact H0|simpl in Hn; lia].
  - destruct s as [|c1 s]; [exact H0|]. simpl in Hn.
    change (String c1 s ++ String c r) with (String c1 (s ++ String c r)).
    rewrite all_white_cons.
    destruct (is_white1 c1); [apply IH; lia|].
    destruct s as [|c2 s].
    + change ("" ++ String c r) with (String c r). cbv beta iota.
      destruct (is_white2 c1 c) eqn:H2; [apply is_white2_bytes in H2; lia|].
      destruct r as [|c3 r]; [reflexivity|].
      destruct (is_white3 c1 c c3) eqn:H3; [apply is_white3_bytes in H3; lia|reflexivity].
    + simpl in Hn.
      change (String c2 s ++ String c r) with (String c2 (s ++ String c r)).
      cbv beta iota.
      destruct (is_white2 c1 c2); [apply IH; lia|].
      destruct s as [|c3 s].
      * change ("" ++ String c r) with (String c r). cbv beta iota.
        destruct (is_white3 c1 c2 c) eqn:H3; [apply is_white3_bytes in H3; lia|reflexivity].
      * simpl in Hn.
        change (String c3 s ++ String c r) with (String c3 (s ++ String c r)).
        cbv beta iota.
        destruct (is_white3 c1 c2 c3); [apply IH; lia|reflexivity].
Qed.

(** [trimEnd] stops at a plain character, whatever stands before it. *)
Lemma trimEnd_app_plain (s : string) (c : ascii) (r : string) :
  plain c -> trimEnd (s ++ String c r) = s ++ String c (trimEnd r).
Proof.
  intros Hc. induction s as [|c1 s IH].
  - pose proof (all_white_plain c r Hc 0 EmptyString (Nat.le_refl _)) as H.
    change (all_white (String c r) = false) in H.
    change ("" ++ String c r) with (String c r).
    now rewrite trimEnd_cons, H.
  - change (String c1 s ++ String c r) with (String c1 (s ++ String c r)).
    rewrite trimEnd_cons.
    change (String c1 (s ++ String c r)) with (String c1 s ++ String c r).
    rewrite (all_white_plain c r Hc _ (String c1 s) (Nat.le_refl _)).
    rewrite IH. reflexivity.
Qed.

Lemma all_white_trimEnd (s : string) : all_white s = true <-> trimEnd s = "".
Proof.
  destruct s as [|c r]; [simpl; tauto|]. rewrite trimEnd_cons.
  destruct (all_white (String c r)); split; intros H; try reflexivity; discriminate.
Qed.

(** One blank before a value: it goes with the value, or stays with what
    is left of it. *)
Lemma trimEnd_blank (m : string) :
  trimEnd (" " ++ m) = if trimEnd m =? "" then "" else " " ++ trimEnd m.
Proof.
  change (" " ++ m) with (String " " m). rewrite trimEnd_cons.
  rewrite all_white_cons_ascii by (change (32 < 128)%nat; lia).
  change (is_white1 " ") with true. cbn [andb].
  destruct (all_white m) eqn:Hm.
  - apply all_white_trimEnd in Hm. now rewrite Hm.
  - destruct (trimEnd m =? "") eqn:E; [|reflexivity].
    apply String.eqb_eq, all_white_trimEnd in E. congruence.
Qed.

(** White space holds no U+0000, so [trimEnd] removes none. *)
Lemma all_white_no_nul (n : nat) :
  forall s, (String.length s <= n)%nat -> all_white s = true -> has_nul s = false.
Proof.
  induction n as [|n IH]; intros s Hn; [destruct s; [reflexivity|simpl in Hn; lia]|].
  destruct s as [|c1 s]; [reflexivity|]. simpl in Hn. cbn [all_white has_nul].
  destruct (is_white1 c1) eqn:H1.
  - intros H. apply is_white1_byte in H1.
    rewrite (IH s) by (trivial; lia).
    destruct (Nat.eqb_spec (nat_of_ascii c1) 0); [lia|reflexivity].
  - destruct s as [|c2 s]; [discriminate|]. simpl in Hn.
    destruct (is_white2 c1 c2) eqn:H2.
    + intros H. apply is_white2_bytes in H2. cbn [has_nul].
      rewrite (IH s) by (trivial; lia).
      destruct (Nat.eqb_spec (nat_of_ascii c1) 0); [lia|].
      destruct (Nat.eqb_spec (nat_of_ascii c2) 0); [lia|reflexivity].
    + destruct s as [|c3 s]; [discriminate|]. simpl in Hn.
      destruct (is_white3 c1 c2 c3) eqn:H3; [|discriminate].
      intros H. apply is_white3_bytes in H3. cbn [has_nul].
      rewrite (IH s) by (trivial; lia).
      destruct (Nat.eqb_spec (nat_of_ascii c1) 0); [lia|].
      destruct (Nat.eqb_spec (nat_of_ascii c2) 0); [lia|].
      destruct (Nat.eqb_spec (nat_of_ascii c3) 0); [lia|reflexivity].
Qed.

Lemma has_nul_trimEnd (s : string) : has_nul (trimEnd s) = has_nul s.
Proof.
  induction s as [|c r IH]; [reflexivity|]. rewrite trimEnd_cons.
  destruct (all_white (String c r)) eqn:Hw.
  - symmetry. now apply (all_white_no_nul _ _ (Nat.le_refl _)).
  - cbn [has_nul]. now rewrite IH.
Qed.

Lemma has_nul_app (a b : string) : has_nul (a ++ b) = has_nul a || has_nul b.
Proof.
  induction a as [|c a IH]; [reflexivity|]. simpl. now rewrite IH, orb_assoc.
Qed.

Lemma append_assoc (a b c : string) : (a ++ b) ++ c = a ++ b ++ c.
Proof. induction a as [|x a IH]; simpl; [reflexivity|now rewrite IH]. Qed.

Lemma append_nil_r (a : string) : a ++ "" = a.
Proof. induction a as [|x a IH]; simpl; [reflexivity|now rewrite IH]. Qed.

Lemma plain_dquote : plain (ascii_of_nat 34).
Proof. split; [change (34 < 128)%nat; lia|reflexivity]. Qed.

End Trim.

(** The command line [runUpdateScript] hands to [exec]: the script, then
    the arguments without the white space at their end. *)
Lemma update_command (scriptPath : Path) (args : string) :
  trim ("python " ++ dquote ++ scriptPath ++ dquote ++ " " ++ args) =
  script_command scriptPath (trimEnd (" " ++ args)).
Proof.
  unfold trim, script_command.
  replace (trimStart ("python " ++ dquote ++ scriptPath ++ dquote ++ " " ++ args))
    with (("python " ++ dquote ++ scriptPath) ++ String (ascii_of_nat 34) (" " ++ args)).
  - rewrite (Trim.trimEnd_app_plain _ _ _ Trim.plain_dquote).
    now rewrite Trim.append_assoc, Trim.append_assoc.
  - rewrite Trim.append_assoc, Trim.append_assoc. reflexivity.
Qed.

Lemma script_command_nul (scriptPath : Path) (rest : string) :
  has_nul (script_command scriptPath rest) = has_nul rest.
Proof.
  unfold script_command. rewrite !Trim.has_nul_app, (path_no_nul scriptPath).
  reflexivity.
Qed.

(** What [runUpdateScript] does: nothing when [exec] throws, which it does
    exactly when an argument holds U+0000, and one more child otherwise. *)
Lemma runUpdateScript_command (scriptPath : Path) (extraArgs : list string)
    (cb : Callback) (st : State) :
  runUpdateScript scriptPath extraArgs cb st =
  if has_nul (join " " extraArgs) then st
  else
    {| updateInProgress := updateInProgress st;
       children := children st ++
         [{| command := script_command scriptPath (trimEnd (" " ++ join " " extraArgs));
             timeout := 600000; callback := cb |}] |}.
Proof.
  unfold runUpdateScript, exec, exec_throws. rewrite update_command.
  rewrite script_command_nul, Trim.has_nul_trimEnd. reflexivity.
Qed.

(** With the one argument [--max-preco <value>]: the value loses the
    white space at its end, and a value of white space only is lost with
    the blank before it. *)
Lemma runUpdateScript_max_preco (scriptPath : Path) (maxPreco : string)
    (cb : Callback) (st : State) :
  runUpdateScript scriptPath ["--max-preco " ++ maxPreco] cb st =
  if has_nul maxPreco then st
  else
    {| updateInProgress := updateInProgress st;
       children := children st ++
         [{| command :=
               script_command scriptPath
                 (" --max-preco" ++
                  (if trimEnd maxPreco =? "" then "" else " " ++ trimEnd maxPreco));
             timeout := 600000; callback := cb |}] |}.
Proof.
  rewrite runUpdateScript_command.
  change (has_nul (join " " ["--max-preco " ++ maxPreco])) with (has_nul maxPreco).
  change (" " ++ join " " ["--max-preco " ++ maxPreco])
    with (" --max-prec" ++ String "o" (" " ++ maxPreco)).
  rewrite Trim.trimEnd_app_plain, Trim.trimEnd_blank;
    [reflexivity|split; [change (111 < 128)%nat; lia|reflexivity]].
Qed.

(** Without extra arguments the command is [python "<scriptPath>"] and
    nothing more: the blank before the empty argument list is trimmed. *)
Lemma runUpdateScript_no_args (scriptPath : Path) (cb : Callback) (st : State) :
  runUpdateScript scriptPath [] cb st =
  {| updateInProgress := updateInProgress st;
     children := children st ++
       [{| command := "python " ++ dquote ++ scriptPath ++ dquote;
           timeout := 600000; callback := cb |}] |}.
Proof.
  rewrite runUpdateScript_command. cbn [join has_nul].
  change (trimEnd (" " ++ "")) with "". unfold script_command.
  now rewrite (Trim.append_nil_r dquote).
Qed.

(** ** Reading the equity snapshot *)

Lemma readStocks_cases (d : Disk) :
  readStocks d = match STOCKS_FILE d with
                 | Some (Normal data) => data
                 | _ => null
                 end.
Proof. unfold readStocks. destruct (STOCKS_FILE d) as [[v|e]|]; reflexivity. Qed.

(** C7. A snapshot file that does not parse reads exactly as a missing
    one: [readStocks] gives [null] for both and throws for neither, and
    its two callers, GET /api/stocks and GET /api/status, answer the same
    for both. *)
Theorem readStocks_corrupt_as_missing (cotahist : File Cotahist) (e : error)
    (st : State) :
  let missing := {| STOCKS_FILE := None; COTAHIST_FILE := cotahist |} in
  let corrupt := {| STOCKS_FILE := Some (Throw e); COTAHIST_FILE := cotahist |} in
  readStocks missing = null /\
  readStocks corrupt = null /\
  api_stocks corrupt = api_stocks missing /\
  api_status corrupt st = api_status missing st.
Proof. repeat split. Qed.

(** Reading a property of a truthy value does not throw. *)
Lemma get_truthy (v : value) (k : string) :
  ToBoolean v = true -> exists w, get v k = Normal w.
Proof. destruct v; simpl; try discriminate; eauto. Qed.

(** C8. GET /api/status always answers, with status 200; when there is no
    equity snapshot to read ([readStocks] gives a falsy value, [null] for a
    missing or corrupt file) the body is [disponivel: false] and the current
    [updateInProgress], and nothing else. *)
Theorem api_status_never_fails (d : Disk) (st : State) :
  exists res,
    api_status d st = Normal res /\
    statusCode res = 200%Z /\
    (ToBoolean (readStocks d) = false ->
     body res = Obj [("disponivel", Bool false);
                     ("updateInProgress", Bool (updateInProgress st))]) /\
    (STOCKS_FILE d = None -> ToBoolean (readStocks d) = false) /\
    (forall e, STOCKS_FILE d = Some (Throw e) -> ToBoolean (readStocks d) = false).
Proof.
  unfold api_status. destruct (ToBoolean (readStocks d)) eqn:Hd; simpl.
  - destruct (get_truthy _ "atualizadoEm" Hd) as [a ->].
    destruct (get_truthy _ "dataReferencia" Hd) as [r ->].
    destruct (get_truthy _ "fonte" Hd) as [f ->].
    destruct (get_truthy _ "totalAcoes" Hd) as [t ->].
    simpl. eexists. repeat split; [discriminate| |].
    + intros Hnone. rewrite readStocks_cases, Hnone in Hd. discriminate.
    + intros e He. rewrite readStocks_cases, He in Hd. discriminate.
  - eexists. repeat split.
Qed.

(** ** The periodic auto-update *)

Lemma isTradinghours_window (now : Date) :
  (0 <= getUTCMinutes now < 60)%Z ->
  isTradinghours now = true <-> in_trading_window now.
Proof.
  intros Hm. unfold isTradinghours, in_trading_window, time_le.
  rewrite andb_true_iff, !Z.leb_le. lia.
Qed.

Section Update.

Variable Number_toString : Q -> string.
Variable scriptPath : Path.

(** [runUpdateScript] leaves the state as it is (when [exec] throws) or
    adds one child; it never touches the guard. *)
Lemma runUpdateScript_cases (extraArgs : list string) (cb : Callback) (st : State) :
  updateInProgress (runUpdateScript scriptPath extraArgs cb st) = updateInProgress st /\
  (children (runUpdateScript scriptPath extraArgs cb st) = children st \/
   exists ch, children (runUpdateScript scriptPath extraArgs cb st)
              = (children st ++ [ch])%list).
Proof.
  rewrite runUpdateScript_command. destruct (has_nul (join " " extraArgs)); simpl.
  - tauto.
  - split; [reflexivity|]. right. eauto.
Qed.

(** A scheduled run always starts its process: its command holds no
    U+0000. *)
Lemma runUpdateScript_neq (cb : Callback) (b : bool) (st : State) :
  runUpdateScript scriptPath [] cb (set_updateInProgress b st) <> st.
Proof.
  rewrite runUpdateScript_no_args. intros E.
  apply (f_equal (fun s => List.length (children s))) in E.
  simpl in E. rewrite length_app in E. simpl in E. lia.
Qed.

Lemma auto_update_cases (now : Date) (st : State) :
  auto_update scriptPath now st =
  if negb (updateInProgress st) && isTradinghours now
  then runUpdateScript scriptPath [] AutoUpdateCallback (set_updateInProgress true st)
  else st.
Proof.
  unfold auto_update. destruct (updateInProgress st), (isTradinghours now); reflexivity.
Qed.

(** C9. When the timer fires, a scheduled update starts if and only if no
    update is in progress and the UTC time of day lies between 13:00 and
    21:20, both included; otherwise nothing changes, so nothing starts at
    22:00.  The timer's period is 30 minutes. *)
Theorem auto_update_iff_idle_in_trading_window (now : Date) (st : State) :
  (0 <= getUTCMinutes now < 60)%Z ->
  (auto_update scriptPath now st =
     runUpdateScript scriptPath [] AutoUpdateCallback (set_updateInProgress true st)
   <-> updateInProgress st = false /\ in_trading_window now) /\
  (auto_update scriptPath now st = st
   <-> ~ (updateInProgress st = false /\ in_trading_window now)) /\
  (getUTCHours now = 22%Z -> auto_update scriptPath now st = st) /\
  UPDATE_INTERVAL_MS = (30 * 60 * 1000)%Z.
Proof.
  intros Hm. pose proof (isTradinghours_window now Hm) as Hw.
  assert (H22 : getUTCHours now = 22%Z -> ~ in_trading_window now).
  { unfold in_trading_window, time_le. lia. }
  assert (Hb : negb (updateInProgress st) && isTradinghours now = true
               <-> updateInProgress st = false /\ in_trading_window now).
  { rewrite andb_true_iff, negb_true_iff, Hw. reflexivity. }
  pose proof (runUpdateScript_neq AutoUpdateCallback true st) as Hneq.
  rewrite auto_update_cases.
  destruct (negb (updateInProgress st) && isTradinghours now).
  - assert (Hc : updateInProgress st = false /\ in_trading_window now) by now apply Hb.
    split; [tauto|]. split; [|split; [|reflexivity]].
    + split; [intros E; now elim Hneq | tauto].
    + intros H. elim (H22 H). tauto.
  - assert (Hc : ~ (updateInProgress st = false /\ in_trading_window now)).
    { intros H. apply Hb in H. discriminate. }
    split; [|split; [tauto|split; [reflexivity|reflexivity]]].
    split; [intros E; symmetry in E; now elim Hneq | tauto].
Qed.

(** ** The single-flight guard *)

Lemma api_update_cases (req_body : value) (st : State) :
  snd (api_update Number_toString scriptPath req_body st) = st \/
  updateInProgress st = false /\
  exists extraArgs,
    snd (api_update Number_toString scriptPath req_body st) =
    runUpdateScript scriptPath extraArgs UpdateCallback (set_updateInProgress true st).
Proof.
  unfold api_update. destruct (updateInProgress st) eqn:Hg; [now left|].
  destruct (maxPreco_of Number_toString req_body); [|now left].
  right. split; [reflexivity|]. eexists. reflexivity.
Qed.

(** What a trigger (manual or scheduled) does to the state: nothing, or,
    from an idle state only, set the guard and start one child. *)
Lemma trigger_cases (ev : Event) (st st' : State) :
  (forall i e, ev <> ChildExit i e) ->
  step Number_toString scriptPath ev st = Some st' ->
  st' = st \/
  updateInProgress st = false /\
  exists extraArgs cb,
    st' = runUpdateScript scriptPath extraArgs cb (set_updateInProgress true st).
Proof.
  intros Hev. destruct ev as [req_body|now|i e]; simpl.
  - intros [= <-].
    destruct (api_update_cases req_body st) as [H|(H & args & E)]; [now left|].
    right. split; [exact H|]. eauto.
  - intros [= <-]. rewrite auto_update_cases.
    destruct (updateInProgress st); simpl; [now left|].
    destruct (isTradinghours now); [|now left]. right. split; eauto.
  - now elim (Hev i e).
Qed.

Lemma child_exit_clears (i : nat) (e : Exit) (st st' : State) :
  children_within_guard st ->
  step Number_toString scriptPath (ChildExit i e) st = Some st' ->
  updateInProgress st = true /\ updateInProgress st' = false /\ children st' = [].
Proof.
  unfold children_within_guard. simpl.
  destruct (nth_error (children st) i) as [ch|] eqn:Hn; [|discriminate].
  intros Hinv [= <-]. destruct st as [g cs]. simpl in *.
  destruct cs as [|c [|c' l]]; destruct g; simpl in Hinv; try lia;
    try (destruct i; discriminate Hn).
  destruct i as [|i]; [|destruct i; discriminate Hn].
  destruct (callback ch); simpl; auto.
Qed.

Lemma started_guard (extraArgs : list string) (cb : Callback) (st : State) :
  children_within_guard st -> updateInProgress st = false ->
  children_within_guard
    (runUpdateScript scriptPath extraArgs cb (set_updateInProgress true st)).
Proof.
  unfold children_within_guard. intros Hinv Hg. rewrite Hg in Hinv.
  destruct (runUpdateScript_cases extraArgs cb (set_updateInProgress true st))
    as [-> [->|[ch ->]]]; simpl; [lia|].
  rewrite length_app. simpl. lia.
Qed.

Lemma step_preserves_guard (ev : Event) (st st' : State) :
  children_within_guard st ->
  step Number_toString scriptPath ev st = Some st' ->
  children_within_guard st'.
Proof.
  intros Hinv Hstep. destruct ev as [req_body|now|i e].
  - apply trigger_cases in Hstep; [|discriminate].
    destruct Hstep as [->|(Hg & a & cb & ->)]; [exact Hinv|].
    now apply started_guard.
  - apply trigger_cases in Hstep; [|discriminate].
    destruct Hstep as [->|(Hg & a & cb & ->)]; [exact Hinv|].
    now apply started_guard.
  - destruct (child_exit_clears _ _ _ _ Hinv Hstep) as (_ & Hg & Hc).
    unfold children_within_guard. rewrite Hg, Hc. simpl. lia.
Qed.

Lemma reachable_guard (st : State) :
  reachable Number_toString scriptPath st -> children_within_guard st.
Proof.
  induction 1 as [|ev st st' _ IH Hstep]; [unfold children_within_guard; simpl; lia|].
  eapply step_preserves_guard; eauto.
Qed.

(** C1. Single flight. In every reachable state at most one collection
    process is running, and none while the guard is clear.  A trigger,
    manual or scheduled, either changes nothing or, from an idle state
    only, sets the guard, and then at most the one process runs.  The end of
    a process, whatever its exit code and also by timeout, finds the guard
    set, clears it and leaves no process running; nothing else clears the
    guard. *)
Theorem single_flight (st : State) :
  reachable Number_toString scriptPath st ->
  (List.length (children st) <= 1)%nat /\
  (updateInProgress st = false -> children st = []) /\
  forall ev st', step Number_toString scriptPath ev st = Some st' ->
    match ev with
    | ChildExit _ _ =>
        updateInProgress st = true /\ updateInProgress st' = false /\ children st' = []
    | _ =>
        st' = st \/
        (updateInProgress st = false /\ updateInProgress st' = true /\
         (List.length (children st') <= 1)%nat)
    end /\
    (updateInProgress st = true -> updateInProgress st' = false ->
     exists i e, ev = ChildExit i e).
Proof.
  intros Hr. pose proof (reachable_guard st Hr) as Hinv.
  assert (Htrig : forall ev st',
    (forall i e, ev <> ChildExit i e) ->
    step Number_toString scriptPath ev st = Some st' ->
    st' = st \/
    (updateInProgress st = false /\ updateInProgress st' = true /\
     (List.length (children st') <= 1)%nat)).
  { intros ev st' Hev Hstep.
    destruct (trigger_cases ev st st' Hev Hstep) as [->|(Hg & a & cb & ->)]; [now left|].
    right. split; [exact Hg|].
    pose proof (started_guard a cb st Hinv Hg) as Hinv'.
    unfold children_within_guard in Hinv'.
    destruct (runUpdateScript_cases a cb (set_updateInProgress true st)) as [E _].
    rewrite E in *. simpl in *. tauto. }
  assert (Hexit : forall i e st',
    step Number_toString scriptPath (ChildExit i e) st = Some st' ->
    updateInProgress st = true /\ updateInProgress st' = false /\ children st' = []).
  { intros i e st'. now apply child_exit_clears. }
  unfold children_within_guard in Hinv. split; [|split].
  - destruct (updateInProgress st); lia.
  - intros Hg. rewrite Hg in Hinv. destruct (children st); [reflexivity|simpl in Hinv; lia].
  - intros ev st' Hstep. split.
    + destruct ev as [req_body|now|i e].
      * apply (Htrig (PostUpdate req_body)); [discriminate|assumption].
      * apply (Htrig (Tick now)); [discriminate|assumption].
      * now apply (Hexit i e).
    + intros Hg Hg'. destruct ev as [req_body|now|i e]; [| |eauto].
      * destruct (Htrig (PostUpdate req_body) st') as [->|(? & ? & _)];
          try discriminate; congruence.
      * destruct (Htrig (Tick now) st') as [->|(? & ? & _)];
          try discriminate; congruence.
Qed.

(** C2, at the input where the handler fails. With no update in progress, a
    request whose [maxPreco] is an object with an own [toString] property
    makes [String(req.body.maxPreco)] throw: the handler sends no response
    of its own, the guard stays clear and no process is started. *)
Theorem api_update_unprintable_maxPreco_throws (running : list ChildProcess) :
  api_update Number_toString scriptPath unprintable_body
    {| updateInProgress := false; children := running |}
  = (Throw TypeError, {| updateInProgress := false; children := running |}).
Proof. reflexivity. Qed.

(** While an update is in progress, POST /api/update answers 409 with an
    error body, whatever the request body, and leaves the state as it is:
    the guard stays set and no process is started. *)
Theorem api_update_busy (req_body : value) (st : State) :
  updateInProgress st = true ->
  api_update Number_toString scriptPath req_body st =
  (Normal (res_status_json 409
             (Obj [("error", Str "Atualização já em andamento. Aguarde.")])), st).
Proof. intros Hg. unfold api_update. now rewrite Hg. Qed.


(** The falsy values, one by one. *)
Lemma falsy_values (v : value) :
  ToBoolean v = false <->
  v = undefined \/ v = null \/ v = Bool false \/ (exists q, v = Num q /\ q == 0) \/
  v = Str "".
Proof.
  destruct v as [| |b|q|s|l|l|n]; simpl; split; intros H;
    try tauto; try discriminate;
    try (destruct H as [H|[H|[H|[(q' & H & _)|H]]]]; discriminate).
  - subst. tauto.
  - destruct H as [H|[H|[H|[(q' & H & _)|H]]]]; congruence.
  - apply negb_false_iff, Qeq_bool_iff in H. eauto 10.
  - destruct H as [H|[H|[H|[(q' & H & H0)|H]]]]; try discriminate.
    injection H as ->. now apply negb_false_iff, Qeq_bool_iff.
  - apply negb_false_iff, String.eqb_eq in H. subst. tauto.
  - destruct H as [H|[H|[H|[(q' & H & _)|H]]]]; try discriminate.
    injection H as ->. reflexivity.
Qed.


End Update.

(** ** Concrete runs *)

(** The scenario of the specification: of two CALLs and one PUT on AAAA3,
    the nearest CALL and the PUT are returned, the PUT (4.5) first. *)
Example resolve_sample :
  resolve ascii_toUpperCase sample_cotahist "AAAA3" "2026-01-01" =
  [ sample_opcao "AAAA3" "PUT" "2026-01-16" (Some 4.5);
    sample_opcao "AAAA3" "CALL" "2026-01-16" (Some 5) ].
Proof. reflexivity. Qed.

(** The CALL date and the PUT date of one result may differ. *)
Example resolve_dates_may_differ :
  map (fun o => (tipo o, vencimento o))
      (resolve ascii_toUpperCase staggered_cotahist "AAAA3" "2026-01-01") =
  [ ("PUT", "2026-01-16"); ("CALL", "2026-02-20") ].
Proof. reflexivity. Qed.

(** At 22:00 UTC the timer starts nothing; at 13:00 and at 21:20 it does. *)
Example auto_update_at_22h :
  auto_update sample_scriptPath (sample_date "2026-01-05T22:00:00.000Z" 22 0) initial
  = initial.
Proof. reflexivity. Qed.

Example auto_update_at_window_ends :
  updateInProgress
    (auto_update sample_scriptPath (sample_date "2026-01-05T13:00:00.000Z" 13 0) initial)
  = true /\
  updateInProgress
    (auto_update sample_scriptPath (sample_date "2026-01-05T21:20:00.000Z" 21 20) initial)
  = true /\
  updateInProgress
    (auto_update sample_scriptPath (sample_date "2026-01-05T21:21:00.000Z" 21 21) initial)
  = false.
Proof. repeat split. Qed.

(** Witness of C1: the state after one accepted POST /api/update. *)
Lemma single_flight_witness :
  reachable integer_toString sample_scriptPath
    (snd (api_update integer_toString sample_scriptPath (Obj []) initial)) /\
  (List.length
     (children (snd (api_update integer_toString sample_scriptPath (Obj []) initial)))
   <= 1)%nat.
Proof.
  assert (R : reachable integer_toString sample_scriptPath
                (snd (api_update integer_toString sample_scriptPath (Obj []) initial))).
  { apply (reachable_step _ _ (PostUpdate (Obj [])) initial); [constructor|reflexivity]. }
  split; [exact R|].
  exact (proj1 (single_flight integer_toString sample_scriptPath _ R)).
Defined.

(** Witness of C3: the nearest CALL of the sample (16 January) against the
    other CALL of AAAA3 in the snapshot (20 February). *)
Lemma resolve_proximo_por_tipo_witness :
  (vencimento (sample_opcao "AAAA3" "CALL" "2026-01-16" (Some 5))
   <=? vencimento (sample_opcao "AAAA3" "CALL" "2026-02-20" (Some 6))) = true.
Proof.
  apply (proj2 (proj1 (resolve_proximo_por_tipo ascii_toUpperCase sample_cotahist
                         "AAAA3" "2026-01-01" "CALL"
                         (sample_opcao "AAAA3" "CALL" "2026-01-16" (Some 5))
                         (or_introl eq_refl))
                  (conj (or_intror (or_introl eq_refl)) eq_refl))).
  - simpl. auto.
  - reflexivity.
  - reflexivity.
  - reflexivity.
Defined.

(** Witness of C4: a lower-case request for the sample. *)
Lemma api_options_ticker_exato_e_futuro_witness :
  ascii_toUpperCase "AAAA3" = ascii_toUpperCase "aaaa3" /\
  ("2026-01-01" <=? "2026-01-16") = true.
Proof.
  apply (api_options_ticker_exato_e_futuro ascii_toUpperCase
           (sample_disk sample_cotahist)
           (sample_date "2026-01-01T12:00:00.000Z" 12 0) "aaaa3"
           (sample_opcao "AAAA3" "CALL" "2026-01-16" (Some 5))).
  vm_compute. right. left. reflexivity.
Defined.

(** Counterexample to C5 as stated: the sort moves a contract without strike
    behind one with strike -1, so the result is not in the order that puts
    a missing strike lowest. *)
Lemma absent_strike_not_first :
  opcoes (body (api_options ascii_toUpperCase (sample_disk negative_strike_cotahist)
                  (sample_date "2026-01-01T12:00:00.000Z" 12 0) "AAAA3")) =
  [ sample_opcao "AAAA3" "CALL" "2026-01-16" (Some (-1));
    sample_opcao "AAAA3" "CALL" "2026-01-16" None ] /\
  ~ Sorted spec_strike_le
      (opcoes (body (api_options ascii_toUpperCase (sample_disk negative_strike_cotahist)
                       (sample_date "2026-01-01T12:00:00.000Z" 12 0) "AAAA3"))).
Proof.
  split; [reflexivity|].
  change (opcoes _) with
    [ sample_opcao "AAAA3" "CALL" "2026-01-16" (Some (-1));
      sample_opcao "AAAA3" "CALL" "2026-01-16" None ].
  intros S. inversion S as [|? ? _ Hhd]; subst.
  inversion Hhd as [|? ? Hle]; subst. exact Hle.
Qed.

(** Witness of C6: the three ways to an empty list. *)
Lemma api_options_never_an_error_witness :
  opcoes (body (api_options ascii_toUpperCase
                  {| STOCKS_FILE := None; COTAHIST_FILE := None |}
                  (sample_date "2026-01-01T12:00:00.000Z" 12 0) "AAAA3")) = [] /\
  opcoes (body (api_options ascii_toUpperCase
                  {| STOCKS_FILE := None; COTAHIST_FILE := Some (Throw SyntaxError) |}
                  (sample_date "2026-01-01T12:00:00.000Z" 12 0) "AAAA3")) = [] /\
  opcoes (body (api_options ascii_toUpperCase (sample_disk sample_cotahist)
                  (sample_date "2026-01-01T12:00:00.000Z" 12 0) "BBBB4")) = [].
Proof.
  split; [|split].
  - exact (proj1 (proj2 (api_options_never_an_error ascii_toUpperCase
                           {| STOCKS_FILE := None; COTAHIST_FILE := None |} _ _))
             eq_refl).
  - exact (proj1 (proj2 (proj2 (api_options_never_an_error ascii_toUpperCase
                                  {| STOCKS_FILE := None;
                                     COTAHIST_FILE := Some (Throw SyntaxError) |} _ _)))
             SyntaxError eq_refl).
  - exact (proj2 (proj2 (proj2 (proj2 (api_options_never_an_error ascii_toUpperCase
                                         (sample_disk sample_cotahist)
                                         (sample_date "2026-01-01T12:00:00.000Z" 12 0)
                                         "BBBB4"))))
             sample_cotahist eq_refl eq_refl).
Defined.

(** Witness of C9: 13:00 with no update in progress. *)
Lemma auto_update_iff_idle_in_trading_window_witness :
  auto_update sample_scriptPath (sample_date "2026-01-05T13:00:00.000Z" 13 0) initial =
  runUpdateScript sample_scriptPath [] AutoUpdateCallback
    (set_updateInProgress true initial)
  <-> updateInProgress initial = false /\
      in_trading_window (sample_date "2026-01-05T13:00:00.000Z" 13 0).
Proof.
  apply (auto_update_iff_idle_in_trading_window sample_scriptPath
           (sample_date "2026-01-05T13:00:00.000Z" 13 0) initial).
  simpl. lia.
Defined.



(** Witness of the busy answer: a second request while the first runs. *)
Lemma api_update_busy_witness :
  statusCode
    (try_catch
       (fst (api_update integer_toString sample_scriptPath (Obj [])
               (snd (api_update integer_toString sample_scriptPath (Obj []) initial))))
       (res_json undefined)) = 409%Z.
Proof.
  rewrite (api_update_busy integer_toString sample_scriptPath (Obj [])
             (snd (api_update integer_toString sample_scriptPath (Obj []) initial))
             eq_refl).
  reflexivity.
Defined.


(** The command line of the sample request, written out. *)
Example api_update_sample_command :
  map command
    (children (snd (api_update integer_toString sample_scriptPath
                      (Obj [("maxPreco", Num 7)]) initial))) =
  [ "python " ++ dquote ++ "/srv/app/scripts/update_stocks.py" ++ dquote
    ++ " --max-preco 7" ].
Proof. reflexivity. Qed.

(** ** GET /api/stocks and GET /api/status together *)

Lemma api_stocks_cases (d : Disk) :
  (exists data, STOCKS_FILE d = Some (Normal data) /\ ToBoolean data = true /\
                api_stocks d = res_json data) \/
  ((~ exists data, STOCKS_FILE d = Some (Normal data) /\ ToBoolean data = true) /\
   exists msg, api_stocks d = res_status_json 404 (Obj [("error", Str msg)])).
Proof.
  unfold api_stocks. rewrite readStocks_cases.
  destruct (STOCKS_FILE d) as [[data|e]|]; simpl.
  - destruct (ToBoolean data) eqn:Hd; simpl; [left; eauto|right].
    split; [intros (x & [= <-] & H); congruence|eauto].
  - right. split; [intros (x & [=] & _)|eauto].
  - right. split; [intros (x & [=] & _)|eauto].
Qed.

(** GET /api/stocks answers 200 with the parsed file, as it is, exactly when
    the file exists, parses, and parses to a truthy value; in every other
    case, also for a file that holds [null], [false], [0] or an empty
    string, it answers 404 with an error body. *)
Theorem api_stocks_200_iff_truthy (d : Disk) :
  (forall data, api_stocks d = res_json data <->
                STOCKS_FILE d = Some (Normal data) /\ ToBoolean data = true) /\
  (statusCode (api_stocks d) = 404%Z <->
   ~ exists data, STOCKS_FILE d = Some (Normal data) /\ ToBoolean data = true) /\
  (statusCode (api_stocks d) = 404%Z ->
   exists msg, body (api_stocks d) = Obj [("error", Str msg)]).
Proof.
  destruct (api_stocks_cases d) as [(data & Hf & Ht & E)|(Hno & msg & E)]; rewrite E.
  - split; [|split].
    + intros data'. split.
      * intros [= <-]. tauto.
      * intros (Hf' & _). congruence.
    + split; [discriminate|]. intros H. elim H. eauto.
    + discriminate.
  - split; [|split].
    + intros data'. split; [discriminate|]. intros H. elim Hno. eauto.
    + tauto.
    + simpl. eauto.
Qed.

(** GET /api/status and GET /api/stocks agree: the status says
    [disponivel: true] exactly when GET /api/stocks would answer 200, and in
    both of its forms it reports the current [updateInProgress]. *)
Theorem api_status_agrees_with_api_stocks (d : Disk) (st : State) :
  exists res,
    api_status d st = Normal res /\
    own (props_of (body res)) "disponivel"
      = Some (Bool (statusCode (api_stocks d) =? 200)%Z) /\
    own (props_of (body res)) "updateInProgress"
      = Some (Bool (updateInProgress st)).
Proof.
  unfold api_status, api_stocks.
  destruct (ToBoolean (readStocks d)) eqn:Hd; simpl.
  - destruct (get_truthy _ "atualizadoEm" Hd) as [a ->].
    destruct (get_truthy _ "dataReferencia" Hd) as [r ->].
    destruct (get_truthy _ "fonte" Hd) as [f ->].
    destruct (get_truthy _ "totalAcoes" Hd) as [t ->].
    simpl. eexists. repeat split.
  - eexists. repeat split.
Qed.

Lemma nullish_defined (v dflt : value) :
  dflt <> undefined -> nullish v dflt <> undefined.
Proof. destruct v; simpl; intros H; try exact H; discriminate. Qed.

(** The body of GET /api/status holds no [undefined], so [res.json] drops
    none of its keys: with a snapshot the six keys are always there;
    [atualizadoEm], [dataReferencia] and [fonte] are the snapshot's value,
    or [null] when the snapshot lacks it or has [null] there, and
    [totalAcoes] is the snapshot's value, or [0] in those two cases.  A
    snapshot that is no object lacks them all. *)
Theorem api_status_body_defined (d : Disk) (st : State) :
  exists res,
    api_status d st = Normal res /\
    Forall (fun kv => snd kv <> undefined) (props_of (body res)) /\
    (ToBoolean (readStocks d) = true ->
     map fst (props_of (body res)) =
       ["disponivel"; "atualizadoEm"; "dataReferencia"; "fonte"; "totalAcoes";
        "updateInProgress"] /\
     own (props_of (body res)) "totalAcoes"
       = Some (nullish (get_opt (readStocks d) "totalAcoes") (Num 0)) /\
     forall k, In k ["atualizadoEm"; "dataReferencia"; "fonte"] ->
       own (props_of (body res)) k = Some (nullish (get_opt (readStocks d) k) null)).
Proof.
  unfold api_status.
  destruct (ToBoolean (readStocks d)) eqn:Hd; simpl.
  - assert (Hget : forall k, get (readStocks d) k = Normal (get_opt (readStocks d) k)).
    { intros k. destruct (readStocks d); try discriminate Hd; reflexivity. }
    rewrite !Hget. simpl. eexists. split; [reflexivity|]. simpl. split.
    + repeat constructor; simpl; try discriminate; apply nullish_defined; discriminate.
    + intros _. split; [reflexivity|]. split; [reflexivity|].
      intros k [<-|[<-|[<-|[]]]]; reflexivity.
  - eexists. split; [reflexivity|]. simpl. split; [|discriminate].
    repeat constructor; discriminate.
Qed.

(** ** More about the options resolver *)

(** A sorted copy of a non-empty array is not empty. *)
Lemma sort_nonempty {A} (cmp : A -> A -> Q) (x : A) (l : list A) :
  sort cmp (x :: l) <> [].
Proof.
  intros E. pose proof (sort_perm cmp (x :: l)) as P. rewrite E in P.
  now apply Permutation_nil in P.
Qed.

(** Where contracts of type [t] match, one of them has the earliest date. *)
Lemma is_proximo_exists (m : list Opcao) (t : string) (o : Opcao) :
  In o m -> tipo o = t ->
  exists o', In o' m /\ tipo o' = t /\ is_proximo m t (vencimento o').
Proof.
  intros Hin Ht.
  assert (Hv : In (vencimento o)
                 (map vencimento (filter (fun x => tipo x =? t) m))).
  { apply in_map, filter_In. split; [exact Hin|now apply String.eqb_eq]. }
  destruct (sort default_cmp (map vencimento (filter (fun x => tipo x =? t) m)))
    as [|p ps] eqn:Es.
  - apply (sort_In default_cmp) in Hv. rewrite Es in Hv. destruct Hv.
  - apply sort_default_head in Es. destruct Es as [Hp Hmin].
    apply in_map_iff in Hp. destruct Hp as (o' & Hvo & Ho').
    apply filter_In in Ho'. destruct Ho' as [Ho' Hto']. apply String.eqb_eq in Hto'.
    exists o'. repeat split; trivial.
    + exists o'. tauto.
    + intros x Hx Htx. rewrite Hvo. apply Hmin, in_map, filter_In.
      split; [exact Hx|now apply String.eqb_eq].
Qed.

Lemma push_proximo_app (m result : list Opcao) (t : string) :
  push_proximo m result t = (result ++ push_proximo m [] t)%list.
Proof.
  unfold push_proximo. destruct (filter (fun o => tipo o =? t) m) as [|a l].
  - now rewrite app_nil_r.
  - destruct (sort default_cmp (Set_spread (map vencimento (a :: l)))).
    + now rewrite app_nil_r.
    + reflexivity.
Qed.

(** What one type contributes is a selection of the matching contracts of
    that type, in the order of the file. *)
Lemma push_proximo_filter (m : list Opcao) (t : string) :
  exists keep, push_proximo m [] t =
               filter keep (filter (fun o => tipo o =? t) m).
Proof.
  unfold push_proximo. destruct (filter (fun o => tipo o =? t) m) as [|a l].
  - exists (fun _ => true). reflexivity.
  - destruct (sort default_cmp (Set_spread (map vencimento (a :: l)))) as [|p ps].
    + exists (fun _ => false). simpl. clear. induction l; simpl; auto.
    + eexists. reflexivity.
Qed.

Lemma filter_disjoint_length {A} (f g : A -> bool) (l : list A) :
  (forall x, f x = true -> g x = true -> False) ->
  (List.length (filter f l) + List.length (filter g l) <= List.length l)%nat.
Proof.
  intros Hfg. induction l as [|x l IH]; simpl; [lia|].
  destruct (f x) eqn:Hf, (g x) eqn:Hg; simpl; try lia.
  elim (Hfg x Hf Hg).
Qed.

Lemma filter_length_le {A} (f : A -> bool) (l : list A) :
  (List.length (filter f l) <= List.length l)%nat.
Proof. induction l as [|x l IH]; simpl; [lia|]. destruct (f x); simpl; lia. Qed.

(** The sort by strike is stable: contracts of one strike keep the order
    they had before. *)
Lemma filter_has_strike_insert (k : Q) (x : Opcao) (l : list Opcao) :
  filter (has_strike k) (insert strike_cmp x l) =
  filter (has_strike k) (x :: l).
Proof.
  induction l as [|y l IH]; simpl; [reflexivity|].
  destruct (Qle_bool (strike_cmp x y) 0) eqn:Hxy; [reflexivity|].
  simpl. simpl in IH. rewrite IH.
  destruct (has_strike k x) eqn:Hx; [|reflexivity].
  destruct (has_strike k y) eqn:Hy; [|reflexivity].
  exfalso. unfold has_strike in *. apply Qeq_bool_iff in Hx, Hy.
  assert (H : Qle_bool (strike_cmp x y) 0 = true).
  { apply Qle_bool_iff. unfold strike_cmp. lra. }
  congruence.
Qed.

Lemma filter_has_strike_sort (k : Q) (l : list Opcao) :
  filter (has_strike k) (sort strike_cmp l) = filter (has_strike k) l.
Proof.
  induction l as [|x l IH]; simpl; [reflexivity|].
  rewrite filter_has_strike_insert. simpl. now rewrite IH.
Qed.

Section ResolverMore.

Variable toUpperCase : string -> string.

Lemma resolve_unfold (cotahist : Cotahist) (ticker today : string) :
  resolve toUpperCase cotahist ticker today =
  sort strike_cmp
    (push_proximo (matched toUpperCase cotahist ticker today) [] "CALL" ++
     push_proximo (matched toUpperCase cotahist ticker today) [] "PUT").
Proof. unfold resolve. simpl. now rewrite push_proximo_app. Qed.

(** A CALL or PUT of the ticker that expires today is always returned: the
    comparison with today includes today, and no returned date can be
    earlier. *)
Theorem resolve_keeps_contract_expiring_today (cotahist : Cotahist)
    (ticker today : string) (o : Opcao) :
  In o (allOpts cotahist) ->
  toUpperCase (match ticker_objeto o with Some s => s | None => "" end) = ticker ->
  tipo o = "CALL" \/ tipo o = "PUT" ->
  vencimento o = today ->
  In o (resolve toUpperCase cotahist ticker today).
Proof.
  intros Hin Ht Htipo Hv.
  assert (Hm : In o (matched toUpperCase cotahist ticker today)).
  { apply matched_In. repeat split; trivial. rewrite Hv. apply StringOrder.leb_refl. }
  apply resolve_In. repeat split; trivial.
  - exists o. tauto.
  - intros o' Ho' _. apply matched_In in Ho'. rewrite Hv. tauto.
Qed.

(** The resolver returns a contract of a type (CALL, PUT) whenever the
    snapshot holds a contract of that type with the request's ticker and a
    date of today or later, and only then; so the list is empty exactly when
    the snapshot holds no such CALL and no such PUT. *)
Theorem resolve_some_of_each_available_type (cotahist : Cotahist)
    (ticker today : string) :
  (forall t, t = "CALL" \/ t = "PUT" ->
     ((exists o, In o (resolve toUpperCase cotahist ticker today) /\ tipo o = t) <->
      (exists o,
         In o (allOpts cotahist) /\
         toUpperCase (match ticker_objeto o with Some s => s | None => "" end) = ticker /\
         (today <=? vencimento o) = true /\
         tipo o = t))) /\
  (resolve toUpperCase cotahist ticker today = [] <->
   forall o,
     In o (allOpts cotahist) ->
     toUpperCase (match ticker_objeto o with Some s => s | None => "" end) = ticker ->
     (today <=? vencimento o) = true ->
     tipo o <> "CALL" /\ tipo o <> "PUT").
Proof.
  assert (Hone : forall o, In o (matched toUpperCase cotahist ticker today) ->
            tipo o = "CALL" \/ tipo o = "PUT" ->
            exists o', In o' (resolve toUpperCase cotahist ticker today) /\
                       tipo o' = tipo o).
  { intros o Hin Ht.
    destruct (is_proximo_exists _ (tipo o) o Hin eq_refl) as (o' & Hin' & Ht' & Hp).
    exists o'. split; [|exact Ht']. apply resolve_In. rewrite Ht'. tauto. }
  split.
  - intros t Ht. split.
    + intros (o & Hin & Hto). apply resolve_In in Hin. destruct Hin as (Hm & _).
      apply matched_In in Hm. exists o. tauto.
    + intros (o & Hin & Htk & Hd & Hto). subst t.
      assert (Hm : In o (matched toUpperCase cotahist ticker today))
        by (apply matched_In; tauto).
      destruct (Hone o Hm Ht) as (o' & H1 & H2). eauto.
  - split.
    + intros E o Hin Htk Hd.
      assert (Hm : In o (matched toUpperCase cotahist ticker today))
        by (apply matched_In; tauto).
      assert (Hno : ~ (tipo o = "CALL" \/ tipo o = "PUT")).
      { intros Ht. destruct (Hone o Hm Ht) as (o' & H1 & _). rewrite E in H1. exact H1. }
      tauto.
    + intros Hno. destruct (resolve toUpperCase cotahist ticker today) as [|o l] eqn:E;
        [reflexivity|].
      assert (Hin : In o (resolve toUpperCase cotahist ticker today)) by (rewrite E; now left).
      apply resolve_In in Hin. destruct Hin as (Hm & Ht & _).
      apply matched_In in Hm. destruct Hm as (H1 & H2 & H3).
      destruct (Hno o H1 H2 H3). tauto.
Qed.

(** The resolver returns contracts of the file only, never more of them
    than the file holds, and no contract twice unless the file holds it
    twice. *)
Theorem resolve_returns_file_contracts (cotahist : Cotahist) (ticker today : string) :
  (forall o, In o (resolve toUpperCase cotahist ticker today) ->
             In o (allOpts cotahist)) /\
  (List.length (resolve toUpperCase cotahist ticker today)
   <= List.length (allOpts cotahist))%nat /\
  (NoDup (allOpts cotahist) -> NoDup (resolve toUpperCase cotahist ticker today)).
Proof.
  split; [|split].
  - intros o Hin. apply resolve_In in Hin. destruct Hin as (Hm & _).
    apply matched_In in Hm. tauto.
  - rewrite resolve_unfold, (Permutation_length (sort_perm _ _)), length_app.
    destruct (push_proximo_filter (matched toUpperCase cotahist ticker today) "CALL")
      as [kc ->].
    destruct (push_proximo_filter (matched toUpperCase cotahist ticker today) "PUT")
      as [kp ->].
    pose proof (filter_length_le kc
                  (filter (fun o => tipo o =? "CALL")
                     (matched toUpperCase cotahist ticker today))) as Lc.
    pose proof (filter_length_le kp
                  (filter (fun o => tipo o =? "PUT")
                     (matched toUpperCase cotahist ticker today))) as Lp.
    assert (Hd : (List.length (filter (fun o => (tipo o =? "CALL")%string)
                                 (matched toUpperCase cotahist ticker today)) +
                  List.length (filter (fun o => (tipo o =? "PUT")%string)
                                 (matched toUpperCase cotahist ticker today))
                  <= List.length (matched toUpperCase cotahist ticker today))%nat).
    { apply filter_disjoint_length. intros x Hx Hy.
      apply String.eqb_eq in Hx, Hy. congruence. }
    pose proof (filter_length_le (matches toUpperCase ticker today)
                  (allOpts cotahist)) as Lm.
    unfold matched in *. lia.
  - intros Hnd. rewrite resolve_unfold.
    apply (Permutation_NoDup (Permutation_sym (sort_perm _ _))).
    destruct (push_proximo_filter (matched toUpperCase cotahist ticker today) "CALL")
      as [kc Ec].
    destruct (push_proximo_filter (matched toUpperCase cotahist ticker today) "PUT")
      as [kp Ep].
    assert (Hm : NoDup (matched toUpperCase cotahist ticker today))
      by now apply NoDup_filter.
    apply NoDup_app.
    + rewrite Ec. now do 2 apply NoDup_filter.
    + rewrite Ep. now do 2 apply NoDup_filter.
    + intros o Hc Hp. rewrite Ec in Hc. rewrite Ep in Hp.
      apply filter_In in Hc, Hp. destruct Hc as [Hc _], Hp as [Hp _].
      apply filter_In in Hc, Hp. destruct Hc as [_ Hc], Hp as [_ Hp].
      apply String.eqb_eq in Hc, Hp. congruence.
Qed.

(** Among contracts of one strike (a missing strike counted as 0) the
    result keeps the order in which they were collected: the CALLs in the
    order of the file, then the PUTs in the order of the file. *)
Theorem resolve_equal_strikes_keep_order (cotahist : Cotahist)
    (ticker today : string) (k : Q) :
  filter (has_strike k) (resolve toUpperCase cotahist ticker today) =
  (filter (has_strike k)
     (push_proximo (matched toUpperCase cotahist ticker today) [] "CALL") ++
   filter (has_strike k)
     (push_proximo (matched toUpperCase cotahist ticker today) [] "PUT"))%list /\
  exists keepCall keepPut,
    push_proximo (matched toUpperCase cotahist ticker today) [] "CALL"
      = filter keepCall (allOpts cotahist) /\
    push_proximo (matched toUpperCase cotahist ticker today) [] "PUT"
      = filter keepPut (allOpts cotahist).
Proof.
  split.
  - now rewrite resolve_unfold, filter_has_strike_sort, filter_app.
  - destruct (push_proximo_filter (matched toUpperCase cotahist ticker today) "CALL")
      as [kc ->].
    destruct (push_proximo_filter (matched toUpperCase cotahist ticker today) "PUT")
      as [kp ->].
    unfold matched.
    exists (fun o => matches toUpperCase ticker today o && ((tipo o =? "CALL") && kc o)),
           (fun o => matches toUpperCase ticker today o && ((tipo o =? "PUT") && kp o)).
    assert (Hff : forall (f g : Opcao -> bool) l,
              filter g (filter f l) = filter (fun o => f o && g o) l).
    { intros f g l. induction l as [|x l IH]; simpl; [reflexivity|].
      destruct (f x); simpl; [destruct (g x); now rewrite IH|exact IH]. }
    rewrite !Hff. split; reflexivity.
Qed.

End ResolverMore.

(** ** More about the update process *)

Lemma Forall_remove_nth {A} (P : A -> Prop) (i : nat) (l : list A) :
  Forall P l -> Forall P (remove_nth i l).
Proof.
  intros H. revert i. induction H as [|x l Hx Hl IH]; intros [|i]; simpl;
    try constructor; auto.
Qed.

Section UpdateMore.

Variable Number_toString : Q -> string.
Variable scriptPath : Path.

(** Every process the server has running is the update script, started
    with the 10-minute limit: [python "<scriptPath>"] alone for a scheduled
    run, and followed by [--max-preco] for a manual one. *)
Theorem children_started_by_server (st : State) :
  reachable Number_toString scriptPath st ->
  Forall (started_by_server scriptPath) (children st).
Proof.
  induction 1 as [|ev st st' _ IH Hstep]; [constructor|].
  destruct ev as [req_body|now|i e]; simpl in Hstep.
  - injection Hstep as <-. unfold api_update.
    destruct (updateInProgress st); [exact IH|].
    destruct (maxPreco_of Number_toString req_body) as [m|err]; [|exact IH].
    cbn [snd]. rewrite runUpdateScript_max_preco.
    destruct (has_nul m); [exact IH|]. cbn [children].
    apply Forall_app. split; [exact IH|]. constructor; [|constructor].
    split; [reflexivity|]. cbn [callback command]. eauto.
  - injection Hstep as <-. rewrite auto_update_cases.
    destruct (negb (updateInProgress st) && isTradinghours now); [|exact IH].
    rewrite runUpdateScript_no_args. cbn [children].
    apply Forall_app. split; [exact IH|]. constructor; [|constructor].
    split; [reflexivity|]. cbn [callback command]. unfold script_command.
    now rewrite (Trim.append_nil_r dquote).
  - destruct (nth_error (children st) i) as [ch|]; [|discriminate].
    injection Hstep as <-. destruct (callback ch); simpl; now apply Forall_remove_nth.
Qed.



End UpdateMore.

(** ** The dashboard's top gainer and top loser *)

Section SortHead.

Context {A : Type}.
Variable cmp : A -> A -> Q.
Hypothesis cmp_total : forall x y, goes_before cmp x y \/ goes_before cmp y x.
Hypothesis cmp_trans :
  forall x y z, goes_before cmp x y -> goes_before cmp y z -> goes_before cmp x z.

(** The first element of a sorted array may stay before all others. *)
Lemma sort_hd_error (l : list A) :
  match hd_error (sort cmp l) with
  | None => l = []
  | Some p => In p l /\ forall x, In x l -> goes_before cmp p x
  end.
Proof.
  destruct (sort cmp l) as [|p ps] eqn:E; simpl.
  - destruct l; [reflexivity|]. now elim (sort_nonempty cmp a l).
  - split.
    + apply (sort_In cmp). rewrite E. now left.
    + intros x Hx. apply (sort_In cmp) in Hx. rewrite E in Hx.
      pose proof (sort_sorted cmp cmp_total cmp_trans l) as S. rewrite E in S.
      inversion S as [|? ? _ Hall]; subst. destruct Hx as [<-|Hx].
      * now destruct (cmp_total p p).
      * rewrite Forall_forall in Hall. now apply Hall.
Qed.

End SortHead.

(** The top gainer is a stock whose daily variation is the highest, and the
    top loser one whose daily variation is the lowest, where a variation
    that is unknown or exactly 0 counts as -999 for the gainer and as 999 for
    the loser; both are [undefined] for an empty list only. *)
Theorem top_gainer_and_loser (allStocks : list Dashboard.StockData) :
  match Dashboard.topGainer allStocks with
  | None => allStocks = []
  | Some g =>
      In g allStocks /\
      forall s, In s allStocks ->
        Dashboard.number_or (Dashboard.varDia s) (-999)
        <= Dashboard.number_or (Dashboard.varDia g) (-999)
  end /\
  match Dashboard.topLoser allStocks with
  | None => allStocks = []
  | Some w =>
      In w allStocks /\
      forall s, In s allStocks ->
        Dashboard.number_or (Dashboard.varDia w) 999
        <= Dashboard.number_or (Dashboard.varDia s) 999
  end.
Proof.
  split.
  - unfold Dashboard.topGainer.
    match goal with |- context [sort ?c _] =>
      pose proof (sort_hd_error c) as H end.
    specialize (H ltac:(intros x y; unfold goes_before; lra)
                  ltac:(intros x y z; unfold goes_before; lra) allStocks).
    destruct (hd_error _) as [g|]; [|exact H]. destruct H as [Hin Hall].
    split; [exact Hin|]. intros s Hs. specialize (Hall s Hs).
    unfold goes_before in Hall. lra.
  - unfold Dashboard.topLoser.
    match goal with |- context [sort ?c _] =>
      pose proof (sort_hd_error c) as H end.
    specialize (H ltac:(intros x y; unfold goes_before; lra)
                  ltac:(intros x y z; unfold goes_before; lra) allStocks).
    destruct (hd_error _) as [w|]; [|exact H]. destruct H as [Hin Hall].
    split; [exact Hin|]. intros s Hs. specialize (Hall s Hs).
    unfold goes_before in Hall. lra.
Qed.

(** ** More concrete runs *)

(** A stock that did not move (0) ranks below one that fell, for the top
    gainer: its variation counts as -999. *)
Example topGainer_ignores_zero :
  option_map Dashboard.ticker
    (Dashboard.topGainer [ Dashboard.sample_stock "AAAA3" (Some 0);
                           Dashboard.sample_stock "BBBB4" (Some (-5)) ])
  = Some "BBBB4".
Proof. reflexivity. Qed.

(** A CALL of the sample that expires on the day of the request. *)
Lemma resolve_keeps_contract_expiring_today_witness :
  In (sample_opcao "AAAA3" "CALL" "2026-01-16" (Some 5))
     (resolve ascii_toUpperCase sample_cotahist "AAAA3" "2026-01-16").
Proof.
  apply (resolve_keeps_contract_expiring_today ascii_toUpperCase sample_cotahist
           "AAAA3" "2026-01-16" (sample_opcao "AAAA3" "CALL" "2026-01-16" (Some 5))).
  - simpl. auto.
  - reflexivity.
  - left. reflexivity.
  - reflexivity.
Defined.

(** The process of a manual update for 7.5. *)
Lemma children_started_by_server_witness :
  Forall (started_by_server sample_scriptPath)
    (children (snd (api_update integer_toString sample_scriptPath
                      (Obj [("maxPreco", Str "7.5")]) initial))).
Proof.
  apply (children_started_by_server integer_toString sample_scriptPath).
  apply (reachable_step _ _ (PostUpdate (Obj [("maxPreco", Str "7.5")])) initial);
    [constructor|reflexivity].
Defined.


